(** * querier-ts: the condition matcher and the query pipeline

    A shallow embedding of [src/query-row-validator.ts], [src/query.ts],
    the sort helpers, the array and type-guard helpers and the number
    validation decorators, followed by the properties of the
    specification that are settled against them.

    Conventions of the embedding.
    - A JavaScript value is a term of [value].  Objects, arrays and
      functions carry a reference: [===] compares them by reference and
      compares primitives by value.
    - A number is an IEEE-754 binary64 datum ([spec_float], in the
      canonical form produced by [binary_normalize 53 1024]).
    - An object is the sequence of its own enumerable properties in
      enumeration order (array indices first, in ascending order, then
      the other names in the order of their creation); the prototype
      chain is not modelled.
    - An array is the sequence of its elements, a hole being an element
      that is not there.
    - A string is given by the UTF-8 bytes of its text, as a string
      literal is read; [<] compares the UTF-16 code units of the text.
    - [Array.prototype.sort] returns the stable order when the comparator
      is consistent on the elements, as ECMAScript requires, and an order
      of the host otherwise.
    - Caller-supplied functions are pure and total: they are applied
      through the host ([call]).
    - A method is a computation on the state of the object ([M]); a
      fluent method returns nothing here, the caller goes on with the
      same object.
    - The array [#rows] is never shared: [from] copies its input and
      every extraction returns slices, so the array is its contents and
      the in-place [sort] is a new content. *)

From Stdlib Require Import ZArith Ascii String Floats.SpecFloat Sorted.
From stdpp Require Import list strings pretty.

Local Open Scope string_scope.
#[local] Set Warnings "-register-all".

(** ** Values *)

Definition number := spec_float.

Definition number_of_Z (z : Z) : number := binary_normalize 53 1024 z 0 false.

Definition ref := nat.

Inductive value : Type :=
| VUndefined
| VNull
| VBoolean (b : bool)
| VNumber (n : number)
| VString (s : string)
| VFunction (f : ref)
| VArray (r : ref) (items : list (option value))
| VObject (r : ref) (props : list (string * value)).

(** What the embedding takes from the JavaScript host: the application of
    a function object to one argument, [ToPrimitive] on objects,
    [StringToNumber], [Number::toString], and the order in which [sort]
    leaves the positions [0 .. n-1] of an array whose comparator is not
    consistent, given the comparison of the elements at two positions. *)
Class Host := {
  call : ref → value → value;
  to_primitive : value → value;
  string_to_number : string → number;
  number_to_string : number → string;
  sort_order : (nat → nat → Z) → nat → list nat;
}.

(** [x === y] *)
Definition strict_equals (x y : value) : bool :=
  match x, y with
  | VUndefined, VUndefined => true
  | VNull, VNull => true
  | VBoolean a, VBoolean b => Bool.eqb a b
  | VNumber a, VNumber b => SFeqb a b
  | VString a, VString b => String.eqb a b
  | VFunction f, VFunction g => Nat.eqb f g
  | VArray r _, VArray r' _ => Nat.eqb r r'
  | VObject r _, VObject r' _ => Nat.eqb r r'
  | _, _ => false
  end.

(** [ToBoolean] *)
Definition to_boolean (v : value) : bool :=
  match v with
  | VUndefined | VNull => false
  | VBoolean b => b
  | VNumber (S754_zero _) | VNumber S754_nan => false
  | VNumber _ => true
  | VString s => negb (String.eqb s "")
  | VFunction _ | VArray _ _ | VObject _ _ => true
  end.

(** [x ?? y] *)
Definition nullish_coalesce (x y : value) : value :=
  match x with
  | VUndefined | VNull => y
  | _ => x
  end.

(** *** Type guards ([utils/functions/type-guards]) *)

Definition isFunction (v : value) : bool :=
  match v with VFunction _ => true | _ => false end.

Definition isNumber (v : value) : bool :=
  match v with VNumber _ => true | _ => false end.

(** [typeof value === 'object' && value !== null] *)
Definition isObject (v : value) : bool :=
  match v with VArray _ _ | VObject _ _ => true | _ => false end.


(** *** Property access *)

Fixpoint assoc (k : string) (props : list (string * value)) : option value :=
  match props with
  | [] => None
  | (k', v) :: rest => if String.eqb k' k then Some v else assoc k rest
  end.

(** The index properties of an array, keyed by the decimal index; a hole
    has no property. *)
Definition array_entries (items : list (option value)) : list (string * value) :=
  omap id (imap (λ i element, (λ v, (pretty i, v)) <$> element) items).

(** The own property [k] of [v], if it has one. *)
Definition own_prop (v : value) (k : string) : option value :=
  match v with
  | VObject _ props => assoc k props
  | VArray _ items =>
      if String.eqb k "length" then Some (VNumber (number_of_Z (Z.of_nat (length items))))
      else assoc k (array_entries items)
  | _ => None
  end.

(** [v[k]]: a property that is not there reads as [undefined]. *)
Definition get_prop (v : value) (k : string) : value :=
  default VUndefined (own_prop v k).

(** [xs[i]] on an array without holes (the rows, the arguments of a
    call). *)
Definition js_index (xs : list value) (i : nat) : value :=
  default VUndefined (xs !! i).

(** [xs[i]] on an array that may have holes. *)
Definition js_element (xs : list (option value)) (i : nat) : value :=
  from_option (default VUndefined) VUndefined (xs !! i).

(** The array of the given elements, without a hole. *)
Definition dense (items : list value) : list (option value) := Some <$> items.

(** ** Generic helpers ([utils/functions/generic]) *)

(** [a.length === b.length && a.every((v, i) => v === b[i])]; [every]
    does not call the function on a hole of [a]. *)
Definition compareArrays (a b : list (option value)) : bool :=
  Nat.eqb (length a) (length b)
  && forallb id (imap (λ i element,
                         match element with
                         | Some v => strict_equals v (js_element b i)
                         | None => true
                         end) a).

(** [Object.entries(obj)] of a conditions object: the object is given by
    its entries. *)
Definition conditions := list (string * value).

Definition getEntries (obj : conditions) : list (string * value) := obj.

(** ** The condition matcher ([query-row-validator.ts]) *)

Module QueryRowValidator.
Section WithHost.
Context `{Host}.

(** [validateColumnCondition]; the object branch is
    [validateInnerObject], which runs a new validator on the cell. The
    result is read by [every], which takes its truth value. *)
Fixpoint validateColumnCondition (ignoreNullValues : bool) (row : value)
    (columnName : string) (condition : value) {struct condition} : bool :=
  if ignoreNullValues
     && (strict_equals condition VNull || strict_equals condition VUndefined)
  then true
  else
    let cellValue := get_prop row columnName in
    match condition with
    | VFunction f => to_boolean (call f cellValue)
    | VArray _ expected =>
        match cellValue with
        | VArray _ items => compareArrays items expected
        | _ => false
        end
    | VObject _ props =>
        if isObject cellValue
        then
          (fix every (entries : list (string * value)) : bool :=
             match entries with
             | [] => true
             | (k, c) :: rest =>
                 validateColumnCondition ignoreNullValues cellValue k c
                 && every rest
             end) props
        else false
    | _ => strict_equals cellValue condition
    end.

(** [validateConditions] *)
Definition validateConditions (row : value) (conditionsObject : conditions)
    (ignoreNullValues : bool) : bool :=
  forallb (λ '(columnName, condition),
             validateColumnCondition ignoreNullValues row columnName condition)
          (getEntries conditionsObject).

(** [QueryRowValidator.validate(row, { conditionsObject, ignoreNullValues })] *)
Definition validate (row : value) (conditionsObject : conditions)
    (ignoreNullValues : bool) : bool :=
  validateConditions row conditionsObject ignoreNullValues.

End WithHost.
End QueryRowValidator.

(** ** Relational comparison and numeric conversions *)

(** The UTF-16 code units of a text given by its UTF-8 bytes: a sequence
    of one, two or three bytes is one code unit, a sequence of four bytes
    a surrogate pair. A byte that starts no sequence stands for itself. *)
Fixpoint utf16_of_utf8 (bytes : list N) : list N :=
  match bytes with
  | [] => []
  | b1 :: rest =>
      if ((b1 <? 192) || (248 <=? b1))%N then b1 :: utf16_of_utf8 rest
      else
        match rest with
        | [] => [b1]
        | b2 :: rest2 =>
            if (b1 <? 224)%N
            then ((b1 mod 32) * 64 + b2 mod 64)%N :: utf16_of_utf8 rest2
            else
              match rest2 with
              | [] => [b1; b2]
              | b3 :: rest3 =>
                  if (b1 <? 240)%N
                  then ((b1 mod 16) * 4096 + (b2 mod 64) * 64 + b3 mod 64)%N
                       :: utf16_of_utf8 rest3
                  else
                    match rest3 with
                    | [] => [b1; b2; b3]
                    | b4 :: rest4 =>
                        let point := ((b1 mod 8) * 262144 + (b2 mod 64) * 4096
                                      + (b3 mod 64) * 64 + b4 mod 64)%N in
                        (55296 + (point - 65536) / 1024)%N
                        :: (56320 + (point - 65536) mod 1024)%N
                        :: utf16_of_utf8 rest4
                    end
              end
        end
  end.

Definition code_units (s : string) : list N :=
  utf16_of_utf8 (N_of_ascii <$> list_ascii_of_string s).

(** The order of two sequences of code units: at the first position where
    they differ, or the shorter first when it is a prefix of the other. *)
Fixpoint code_units_lt (a b : list N) : bool :=
  match a, b with
  | _, [] => false
  | [], _ :: _ => true
  | x :: a', y :: b' => (x <? y)%N || ((x =? y)%N && code_units_lt a' b')
  end.

Section Operators.
Context `{Host}.

(** [ToPrimitive]: objects are converted by the host. *)
Definition ToPrimitive (v : value) : value :=
  if isObject v || isFunction v then to_primitive v else v.

(** [ToNumber] of a primitive ([NaN] stands in for the [TypeError] of a
    [ToPrimitive] that returns an object). *)
Definition ToNumber (v : value) : number :=
  match v with
  | VUndefined => S754_nan
  | VNull => S754_zero false
  | VBoolean b => if b then number_of_Z 1 else S754_zero false
  | VNumber n => n
  | VString s => string_to_number s
  | _ => S754_nan
  end.

(** [x < y]: two strings compare by code units, anything else as
    numbers. *)
Definition js_lt (x y : value) : bool :=
  match ToPrimitive x, ToPrimitive y with
  | VString a, VString b => code_units_lt (code_units a) (code_units b)
  | px, py => SFltb (ToNumber px) (ToNumber py)
  end.

(** [x > y] is [y < x]. *)
Definition js_gt (x y : value) : bool := js_lt y x.
End Operators.

(** The integer a number denotes, if it denotes one. *)
Definition integer_value (n : number) : option Z :=
  match n with
  | S754_zero _ => Some 0%Z
  | S754_finite s m e =>
      if (0 <=? e)%Z then Some (cond_Zopp s (Z.pos m * 2 ^ e))
      else if (Z.pos m mod 2 ^ (- e) =? 0)%Z
           then Some (cond_Zopp s (Z.pos m / 2 ^ (- e)))
           else None
  | _ => None
  end.

(** [Number.isSafeInteger] *)
Definition isSafeInteger (v : value) : bool :=
  match v with
  | VNumber n =>
      match integer_value n with
      | Some z => (Z.abs z <=? 2 ^ 53 - 1)%Z
      | None => false
      end
  | _ => false
  end.

(** [Number::toString]: an integer below [10^21] prints as its decimal
    digits; the host prints the other numbers. *)
Definition NumberToString `{Host} (n : number) : string :=
  match integer_value n with
  | Some z => if (Z.abs z <? 10 ^ 21)%Z then pretty z else number_to_string n
  | None => number_to_string n
  end.

Inductive integer_or_infinity :=
| NegInfinity
| Finite (z : Z)
| PosInfinity.

(** [ToIntegerOrInfinity] of a number: truncation towards zero. *)
Definition ToIntegerOrInfinity (n : number) : integer_or_infinity :=
  match n with
  | S754_nan | S754_zero _ => Finite 0
  | S754_infinity s => if s then NegInfinity else PosInfinity
  | S754_finite s m e => Finite (cond_Zopp s (Z.shiftl (Z.pos m) e))
  end.

(** ** Arrays: [slice] and [sort] *)

(** The index [slice] derives from a relative position. *)
Definition relative_index (len : nat) (k : integer_or_infinity) : nat :=
  match k with
  | NegInfinity => 0
  | PosInfinity => len
  | Finite z =>
      if (z <? 0)%Z then Z.to_nat (Z.max (Z.of_nat len + z) 0)
      else Z.to_nat (Z.min z (Z.of_nat len))
  end.

Section Slice.
Context `{Host}.

(** [xs.slice(start, end)]; an [undefined] end is the length. *)
Definition js_slice (xs : list value) (start end_ : value) : list value :=
  let len := length xs in
  let k := relative_index len (ToIntegerOrInfinity (ToNumber start)) in
  let final :=
    match end_ with
    | VUndefined => len
    | _ => relative_index len (ToIntegerOrInfinity (ToNumber end_))
    end in
  take (final - k) (drop k xs).
End Slice.

(** The stable order of a list under a comparator: each element goes
    after the elements it is greater than and before the first it is not
    ([x] is greater than [y] when [comparefn(x, y) > 0]). *)
Fixpoint stable_insert {A} (comparefn : A → A → Z) (x : A) (sorted : list A) : list A :=
  match sorted with
  | [] => [x]
  | y :: rest =>
      if (0 <? comparefn x y)%Z then y :: stable_insert comparefn x rest
      else x :: sorted
  end.

Fixpoint stable_sort {A} (comparefn : A → A → Z) (xs : list A) : list A :=
  match xs with
  | [] => []
  | x :: rest => stable_insert comparefn x (stable_sort comparefn rest)
  end.

(** A consistent comparator for the elements of [xs], as ECMAScript
    defines it: on them, comparing equal is reflexive, symmetric and
    transitive, and comparing less and comparing greater are
    transitive. *)
Definition consistent_comparator {A} (comparefn : A → A → Z) (xs : list A) : bool :=
  forallb (λ a,
    (comparefn a a =? 0)%Z
    && forallb (λ b,
         implb (comparefn a b =? 0)%Z (comparefn b a =? 0)%Z
         && forallb (λ c,
              implb ((comparefn a b =? 0)%Z && (comparefn b c =? 0)%Z)
                    (comparefn a c =? 0)%Z
              && implb ((comparefn a b <? 0)%Z && (comparefn b c <? 0)%Z)
                       (comparefn a c <? 0)%Z
              && implb ((0 <? comparefn a b)%Z && (0 <? comparefn b c)%Z)
                       (0 <? comparefn a c)%Z) xs) xs) xs.

(** [xs.sort(comparefn)] on an array of rows (no element is [undefined]
    or a hole). With a consistent comparator the result is the stable
    order; otherwise it is the order of the host, which returns the
    elements it was given. *)
Definition js_sort `{Host} (comparefn : value → value → Z) (xs : list value)
    : list value :=
  if consistent_comparator comparefn xs then stable_sort comparefn xs
  else
    let order :=
      sort_order (λ i j, comparefn (js_index xs i) (js_index xs j)) (length xs) in
    if bool_decide (order ≡ₚ seq 0 (length xs)) then js_index xs <$> order else xs.

(** ** Sort helpers ([utils/functions/sort]) *)

Section Sort.
Context `{Host}.

(** The three-way comparison of two rows on one property. *)
Definition compare_property (property : string) (a b : value) : Z :=
  if js_lt (get_prop a property) (get_prop b property) then (-1)%Z
  else if js_gt (get_prop a property) (get_prop b property) then 1%Z
  else 0%Z.

(** [sortByProperty(property)] *)
Definition sortByProperty (property : string) : value → value → Z :=
  let '(sortOrder, property) :=
    match property with
    | String "-"%char rest => ((-1)%Z, rest)
    | _ => (1%Z, property)
    end in
  λ a b,
    let result := compare_property property a b in
    (result * sortOrder)%Z.

(** [sortByProperties(...props)]: the loop runs while [result === 0] and
    properties remain. *)
Definition sortByProperties (props : list string) : value → value → Z :=
  λ obj1 obj2,
    (fix loop (remaining : list string) : Z :=
       match remaining with
       | [] => 0%Z
       | property :: remaining' =>
           let result := sortByProperty property obj1 obj2 in
           if (result =? 0)%Z then loop remaining' else result
       end) props.
End Sort.

(** ** Errors and effects *)

(** The argument of the [InvalidArgumentError] constructor, from which the
    message of the error is built. *)
Record InvalidArgumentError := {
  method : string;
  param : nat;
  argument : value;
  expected : string;
}.

(** How a call completes: normally, or by throwing. *)
Inductive completion (A : Type) : Type :=
| Normal (a : A)
| Throw (e : InvalidArgumentError).
Arguments Normal {A} a.
Arguments Throw {A} e.

(** A method runs on the object it is called on: it reads and updates
    [this] and completes normally or throws; what was written to [this]
    before a throw stays written. *)
Definition M (S A : Type) : Type := S → S * completion A.

#[global] Instance M_ret {S} : MRet (M S) := λ A a this, (this, Normal a).

#[global] Instance M_bind {S} : MBind (M S) := λ A B f m this,
  match m this with
  | (this', Normal a) => f a this'
  | (this', Throw e) => (this', Throw e)
  end.

Definition get {S} : M S S := λ this, (this, Normal this).

Definition put {S} (s : S) : M S unit := λ _, (s, Normal ()).

Definition lift {S A} (c : completion A) : M S A := λ this, (this, c).

(** ** Number validation decorators ([utils/decorators/number-validaton.ts]) *)

Module NumberValidation.

Record ParameterConfig := {
  config_value : option number;
  config_index : nat;
}.

Inductive metadata_key := minMetadataKey | maxMetadataKey | integerMetadataKey.

Definition metadata_key_eqb (k k' : metadata_key) : bool :=
  match k, k' with
  | minMetadataKey, minMetadataKey
  | maxMetadataKey, maxMetadataKey
  | integerMetadataKey, integerMetadataKey => true
  | _, _ => false
  end.

(** The metadata of one target: a list of parameter configurations for
    each key and property; nothing defined reads as the empty list. *)
Definition metadata := metadata_key → string → list ParameterConfig.

Definition no_metadata : metadata := λ _ _, [].

Definition getOwnMetadata (key : metadata_key) (target : metadata)
    (propertyKey : string) : list ParameterConfig :=
  target key propertyKey.

Definition defineMetadata (key : metadata_key) (v : list ParameterConfig)
    (target : metadata) (propertyKey : string) : metadata :=
  λ k p,
    if metadata_key_eqb k key && String.eqb p propertyKey then v else target k p.

(** [@min(value)] on a parameter *)
Definition min (value : number) (target : metadata) (propertyKey : string)
    (parameterIndex : nat) : metadata :=
  let minParameters := getOwnMetadata minMetadataKey target propertyKey in
  defineMetadata minMetadataKey
    (minParameters ++ [{| config_value := Some value; config_index := parameterIndex |}])
    target propertyKey.

(** [@max(value)] on a parameter *)
Definition max (value : number) (target : metadata) (propertyKey : string)
    (parameterIndex : nat) : metadata :=
  let maxParameters := getOwnMetadata maxMetadataKey target propertyKey in
  defineMetadata maxMetadataKey
    (maxParameters ++ [{| config_value := Some value; config_index := parameterIndex |}])
    target propertyKey.

(** [@integer] on a parameter *)
Definition integer (target : metadata) (propertyKey : string)
    (parameterIndex : nat) : metadata :=
  let integerParameters := getOwnMetadata integerMetadataKey target propertyKey in
  defineMetadata integerMetadataKey
    (integerParameters ++ [{| config_value := None; config_index := parameterIndex |}])
    target propertyKey.

Section Checks.
Context `{Host}.

(** [parameter.value!] as a value, and inside a template literal. *)
Definition config_value_of (parameter : ParameterConfig) : value :=
  from_option VNumber VUndefined (config_value parameter).

Definition config_value_string (parameter : ParameterConfig) : string :=
  from_option NumberToString "undefined" (config_value parameter).

Fixpoint checkMinParams (methodName : string) (params : list ParameterConfig)
    (actualArguments : list value) : completion unit :=
  match params with
  | [] => Normal ()
  | parameter :: params' =>
      let actualValue := js_index actualArguments (config_index parameter) in
      let minValue := config_value_of parameter in
      if negb (isNumber actualValue) || js_lt actualValue minValue
      then Throw {| method := methodName;
                    param := config_index parameter;
                    argument := actualValue;
                    expected := "equal or greater than "
                                ++ config_value_string parameter |}
      else checkMinParams methodName params' actualArguments
  end.

Fixpoint checkMaxParams (methodName : string) (params : list ParameterConfig)
    (actualArguments : list value) : completion unit :=
  match params with
  | [] => Normal ()
  | parameter :: params' =>
      let actualValue := js_index actualArguments (config_index parameter) in
      let maxValue := config_value_of parameter in
      if negb (isNumber actualValue) || js_gt actualValue maxValue
      then Throw {| method := methodName;
                    param := config_index parameter;
                    argument := actualValue;
                    expected := "equal or less than "
                                ++ config_value_string parameter |}
      else checkMaxParams methodName params' actualArguments
  end.

Fixpoint checkIntegerParams (methodName : string) (params : list ParameterConfig)
    (actualArguments : list value) : completion unit :=
  match params with
  | [] => Normal ()
  | parameter :: params' =>
      let index := config_index parameter in
      let actualValue := js_index actualArguments index in
      if negb (isSafeInteger actualValue)
      then Throw {| method := methodName;
                    param := index;
                    argument := actualValue;
                    expected := "an integer" |}
      else checkIntegerParams methodName params' actualArguments
  end.
End Checks.

Section ValidateNumbers.
Context `{Host}.

(** [@validateNumbers] on a method: the method is replaced by a function
    that checks the arguments and then applies the method. *)
Definition validateNumbers {S A} (target : metadata) (propertyName : string)
    (method : list value → M S A) : list value → M S A :=
  λ arguments,
    let minParams := getOwnMetadata minMetadataKey target propertyName in
    let maxParams := getOwnMetadata maxMetadataKey target propertyName in
    let integerParams := getOwnMetadata integerMetadataKey target propertyName in
    _ ← lift (checkMinParams propertyName minParams arguments);
    _ ← lift (checkMaxParams propertyName maxParams arguments);
    _ ← lift (checkIntegerParams propertyName integerParams arguments);
    method arguments.
End ValidateNumbers.

End NumberValidation.

(** ** The query pipeline ([query.ts]) *)

(** [Object.entries], [Object.keys] and [Object.values] of a row (rows
    are objects). *)
Definition object_entries (v : value) : list (string * value) :=
  match v with
  | VObject _ props => props
  | VArray _ items => array_entries items
  | _ => []
  end.

Definition object_keys (v : value) : list string := (object_entries v).*1.

Definition object_values (v : value) : list value := (object_entries v).*2.

(** [xs[i]] for an index that may be negative. *)
Definition js_index_Z (xs : list value) (i : Z) : value :=
  if (i <? 0)%Z then VUndefined else js_index xs (Z.to_nat i).

(** The state of a [Query]: [#rows], [#columns], [#startAt], [#limit]
    ([undefined] until it is set) and [ignoreNullValues]. *)
Record Query := {
  rows : list value;
  columns : list string;
  startAt : value;
  limitValue : value;
  ignoreNullValues : bool;
}.

Definition set_rows (v : list value) (this : Query) : Query :=
  {| rows := v; columns := columns this; startAt := startAt this;
     limitValue := limitValue this; ignoreNullValues := ignoreNullValues this |}.

Definition set_columns (v : list string) (this : Query) : Query :=
  {| rows := rows this; columns := v; startAt := startAt this;
     limitValue := limitValue this; ignoreNullValues := ignoreNullValues this |}.

Definition set_startAt (v : value) (this : Query) : Query :=
  {| rows := rows this; columns := columns this; startAt := v;
     limitValue := limitValue this; ignoreNullValues := ignoreNullValues this |}.

Definition set_limitValue (v : value) (this : Query) : Query :=
  {| rows := rows this; columns := columns this; startAt := startAt this;
     limitValue := v; ignoreNullValues := ignoreNullValues this |}.

Definition set_ignoreNullValues (v : bool) (this : Query) : Query :=
  {| rows := rows this; columns := columns this; startAt := startAt this;
     limitValue := limitValue this; ignoreNullValues := v |}.

(** The argument of [select]: one column or an array of columns. *)
Inductive select_columns :=
| OneColumn (column : string)
| ManyColumns (columns : list string).

(** The argument of [where]: a callback on the row or a conditions
    object. *)
Inductive where_condition :=
| Callback (f : ref)
| Conditions (conditionsObject : conditions).

Module Query.
Import NumberValidation.

(** The decorations of the class: [@integer @min(0)] on the parameter of
    [skip] and of [limit]. *)
Definition decorations : metadata :=
  let target := min (S754_zero false) no_metadata "skip" 0 in
  let target := integer target "skip" 0 in
  let target := min (S754_zero false) target "limit" 0 in
  integer target "limit" 0.

Section WithHost.
Context `{Host}.

(** [Query.from(rows)]: the constructor copies the rows. *)
Definition from (rows : list value) : Query :=
  {| rows := rows; columns := []; startAt := VNumber (S754_zero false);
     limitValue := VUndefined; ignoreNullValues := false |}.

Definition select (columns : select_columns) : M Query unit :=
  this ← get;
  put (set_columns
         match columns with
         | ManyColumns columns => columns
         | OneColumn column => [column]
         end this).

Definition validateRow (this : Query) (row : value) (condition : conditions) : bool :=
  QueryRowValidator.validate row condition (ignoreNullValues this).

Definition filterRows (condition : where_condition) : M Query unit :=
  this ← get;
  put (set_rows
         (filter (λ row,
                    match condition with
                    | Callback f => to_boolean (call f row)
                    | Conditions conditionsObject =>
                        validateRow this row conditionsObject
                    end = true)
                 (rows this))
         this).

Definition where_ (condition : where_condition) : M Query unit :=
  filterRows condition.

Definition filterWhere (condition : conditions) : M Query unit :=
  this ← get;
  _ ← put (set_ignoreNullValues true this);
  _ ← filterRows (Conditions condition);
  this ← get;
  put (set_ignoreNullValues false this).

Definition orderBy (columns : list string) : M Query unit :=
  this ← get;
  put (set_rows (js_sort (sortByProperties columns) (rows this)) this).

Definition getLimitedRows : M Query (list value) :=
  this ← get;
  mret (js_slice (js_slice (rows this) (startAt this) VUndefined)
                 (VNumber (S754_zero false)) (limitValue this)).

Definition count : M Query nat :=
  rows ← getLimitedRows;
  mret (length rows).

Definition exists_ : M Query bool :=
  n ← count;
  mret (0 <? n)%nat.

Definition first : M Query value :=
  rows ← getLimitedRows;
  mret (if negb (length rows =? 0)%nat then js_index rows 0 else VNull).

Definition last : M Query value :=
  rows ← getLimitedRows;
  n ← count;
  mret (nullish_coalesce (js_index_Z rows (Z.of_nat n - 1)) VNull).

Definition all : M Query (list value) :=
  getLimitedRows.

(** [getFirstColumn]: [None] is for [null], and for the [undefined] that
    [Object.keys(firstObject)[0]] is when the object has no key. *)
Definition getFirstColumn : M Query (option string) :=
  this ← get;
  if negb (length (columns this) =? 0)%nat then mret (columns this !! 0)
  else
    firstObject ← first;
    mret (if to_boolean firstObject then object_keys firstObject !! 0 else None).

(** Whether a column name counts as true: a name that is not empty. *)
Definition column_truthy (column : option string) : bool :=
  match column with
  | Some name => to_boolean (VString name)
  | None => false
  end.

Definition scalar : M Query value :=
  firstObject ← first;
  firstColumn ← getFirstColumn;
  mret (match firstColumn with
        | Some name =>
            if to_boolean firstObject && column_truthy firstColumn
            then nullish_coalesce (get_prop firstObject name) (VBoolean false)
            else VBoolean false
        | None => VBoolean false
        end).

Definition column : M Query (list value) :=
  firstColumn ← getFirstColumn;
  match firstColumn with
  | Some name =>
      if negb (column_truthy firstColumn) then mret []
      else
        rows ← getLimitedRows;
        mret ((λ row, get_prop row name) <$> rows)
  | None => mret []
  end.

Definition values : M Query (list (list value)) :=
  rows ← getLimitedRows;
  this ← get;
  mret ((λ row,
           if negb (length (columns this) =? 0)%nat
           then (λ column, get_prop row column) <$> columns this
           else object_values row) <$> rows).

Definition skip (numberOfRows : value) : M Query unit :=
  validateNumbers decorations "skip"
    (λ arguments,
       this ← get;
       put (set_startAt (js_index arguments 0) this))
    [numberOfRows].

Definition limit (limit : value) : M Query unit :=
  validateNumbers decorations "limit"
    (λ arguments,
       this ← get;
       put (set_limitValue (js_index arguments 0) this))
    [limit].

End WithHost.
End Query.

(** ** The base object ([base-object.ts]) *)

(** The array index a property name is: the name is the decimal form of
    an integer below [2^32 - 1]. *)
Fixpoint digits_value (s : string) (acc : N) : option N :=
  match s with
  | EmptyString => Some acc
  | String c rest =>
      let d := N_of_ascii c in
      if ((48 <=? d) && (d <=? 57))%N then digits_value rest (10 * acc + (d - 48))%N
      else None
  end.

Definition array_index (k : string) : option N :=
  match digits_value k 0 with
  | Some n => if String.eqb (pretty n) k && (n <? 2 ^ 32 - 1)%N then Some n else None
  | None => None
  end.

(** The value of a property that is there is replaced in its place. *)
Fixpoint update_prop (k : string) (v : value) (props : list (string * value))
    : list (string * value) :=
  match props with
  | [] => []
  | (k', v') :: rest =>
      if String.eqb k' k then (k, v) :: rest else (k', v') :: update_prop k v rest
  end.

(** A new array index goes before the first property that is not an
    array index or is a larger one. *)
Fixpoint insert_index (n : N) (k : string) (v : value)
    (props : list (string * value)) : list (string * value) :=
  match props with
  | [] => [(k, v)]
  | (k', v') :: rest =>
      match array_index k' with
      | Some n' =>
          if (n' <? n)%N then (k', v') :: insert_index n k v rest
          else (k, v) :: props
      | None => (k, v) :: props
      end
  end.

(** [obj[k] = v] on the own properties of an object: a property that is
    there keeps its place and takes the value; a new one goes among the
    array indices when it is one, and last otherwise. *)
Definition set_prop (k : string) (v : value) (props : list (string * value))
    : list (string * value) :=
  if bool_decide (k ∈ props.*1) then update_prop k v props
  else
    match array_index k with
    | Some n => insert_index n k v props
    | None => props ++ [(k, v)]
    end.

(** [Object.assign(target, source)]: the entries of the source are
    assigned to the target one after the other. *)
Definition object_assign (target source : list (string * value))
    : list (string * value) :=
  foldl (λ target '(k, v), set_prop k v target) target source.

(** The state of a [BaseObject] is its own properties. *)
Module BaseObject.

Definition setAttribute (attribute : string) (v : value)
    : M (list (string * value)) unit :=
  this ← get;
  put (set_prop attribute v this).

Definition setAttributes (attributes : list (string * value))
    : M (list (string * value)) unit :=
  this ← get;
  put (object_assign this attributes).

(** The constructor, on a new object without properties; [init] defaults
    to the empty object. *)
Definition new (init : option (list (string * value))) : list (string * value) :=
  (setAttributes (default [] init) []).1.

End BaseObject.

(** ** The lifetime of a query *)

(** The calls that build a query. *)
Inductive operation :=
| Select (columns : select_columns)
| Where (condition : where_condition)
| FilterWhere (condition : conditions)
| OrderBy (columns : list string)
| Skip (numberOfRows : value)
| Limit (limit : value).

Section Lifetime.
Context `{Host}.

Definition perform (op : operation) : M Query unit :=
  match op with
  | Select columns => Query.select columns
  | Where condition => Query.where_ condition
  | FilterWhere condition => Query.filterWhere condition
  | OrderBy columns => Query.orderBy columns
  | Skip numberOfRows => Query.skip numberOfRows
  | Limit limit => Query.limit limit
  end.

(** The state after a sequence of calls; a call that throws leaves the
    state it had reached. *)
Definition perform_all (ops : list operation) (this : Query) : Query :=
  foldl (λ this op, (perform op this).1) this ops.

End Lifetime.

(** ** The statements of the specification, in its own words *)

(** "[r[k]]": the value of the first own property of [r] whose name is
    [k] (an index or the length, for an array), and [undefined] when
    there is none. *)
Definition position_at (xs : list (option value)) (i : nat) : value :=
  match xs !! i with
  | Some (Some v) => v
  | _ => VUndefined
  end.

Definition field (r : value) (k : string) : value :=
  match r with
  | VObject _ props =>
      from_option (λ found, found.2.2) VUndefined (list_find (λ p, p.1 = k) props)
  | VArray _ items =>
      if decide (k = "length") then VNumber (number_of_Z (Z.of_nat (length items)))
      else from_option (λ found, position_at items found.2) VUndefined
             (list_find (λ i, pretty i = k) (seq 0 (length items)))
  | _ => VUndefined
  end.

(** "An ordered sequence of identical length and every positional pair
    equal by reference or primitive equality". *)
Definition matching_elementwise (items expected : list (option value)) : Prop :=
  length items = length expected
  ∧ ∀ i, i < length expected →
         strict_equals (position_at items i) (position_at expected i) = true.




(** "[rows[s .. s+l)], clipped to the available length (all of
    [rows[s..]] when [l] is unset)". *)
Definition window (s : nat) (l : option nat) (rows : list value) : list value :=
  match l with
  | Some l => take l (drop s rows)
  | None => drop s rows
  end.

(** A value that is the number of the integer [z]. *)
Definition number_is (v : value) (z : Z) : Prop :=
  match v with
  | VNumber n => integer_value n = Some z
  | _ => False
  end.

(** A limit that is unset, or set to the number of [l]. *)
Definition limit_is (v : value) (l : option nat) : Prop :=
  match l with
  | Some l => number_is v (Z.of_nat l)
  | None => v = VUndefined
  end.

(** "The rows whose field [k] is absent or whose value is undefined". *)
Definition absent_or_undefined (r : value) (k : string) : bool :=
  match r with
  | VObject _ props =>
      match list_find (λ p, p.1 = k) props with
      | None | Some (_, (_, VUndefined)) => true
      | Some _ => false
      end
  | _ => match field r k with VUndefined => true | _ => false end
  end.

(** "The rows [r] with [r[k] === null]". *)
Definition holds_null (r : value) (k : string) : bool :=
  match field r k with VNull => true | _ => false end.


(** "The first selected column, or, when no column is selected, the first
    own-enumerable field of the first windowed row". *)
Definition first_column_of (this : Query) (row : value) : option string :=
  match columns this with
  | column :: _ => Some column
  | [] => head (object_keys row)
  end.

(** "The value of the first column of the first windowed row, and false
    if there is no windowed row or no column". *)
Definition scalar_specified (this : Query) (windowed : list value) : value :=
  match windowed with
  | [] => VBoolean false
  | row :: _ =>
      match first_column_of this row with
      | Some column => get_prop row column
      | None => VBoolean false
      end
  end.

(** The same, with false also when that value is null or undefined. *)
Definition scalar_or_false (this : Query) (windowed : list value) : value :=
  match windowed with
  | [] => VBoolean false
  | row :: _ =>
      match first_column_of this row with
      | Some column => nullish_coalesce (get_prop row column) (VBoolean false)
      | None => VBoolean false
      end
  end.

(** The windowed rows: what [getLimitedRows] computes from the state. *)
Definition limited `{Host} (this : Query) : list value :=
  js_slice (js_slice (rows this) (startAt this) VUndefined)
           (VNumber (S754_zero false)) (limitValue this).

(** A column name "prefixed with [-]". *)
Definition is_dash_prefixed (column : string) : bool :=
  match column with
  | String c _ => Ascii.eqb c "-"
  | EmptyString => false
  end.

(** "[n] is not a safe integer or [n < 0]". *)
Definition invalid_argument `{Host} (n : value) : bool :=
  negb (isSafeInteger n) || js_lt n (VNumber (S754_zero false)).

(** The invariant of the state: [startAt] is a non-negative integer,
    [limitValue] is unset or a non-negative integer, and
    [ignoreNullValues] is false between calls. *)
Definition state_invariant (this : Query) : Prop :=
  ignoreNullValues this = false
  ∧ (∃ s : nat, number_is (startAt this) (Z.of_nat s))
  ∧ (∃ l : option nat, limit_is (limitValue this) l).

(** A column that holds a number other than [NaN] in every row. *)
Definition numeric_column (x : string) (rows : list value) : Prop :=
  ∀ r, r ∈ rows → ∃ n, get_prop r x = VNumber n ∧ n ≠ S754_nan.

(** A condition without the entries that are null or undefined, at every
    depth of its nested objects. *)
Fixpoint strip_condition (c : value) : value :=
  match c with
  | VObject r props =>
      VObject r
        ((fix strip (entries : list (string * value)) : list (string * value) :=
            match entries with
            | [] => []
            | (k, c') :: rest =>
                match c' with
                | VNull | VUndefined => strip rest
                | _ => (k, strip_condition c') :: strip rest
                end
            end) props)
  | _ => c
  end.

Fixpoint strip_nullish (c : conditions) : conditions :=
  match c with
  | [] => []
  | (k, c') :: rest =>
      match c' with
      | VNull | VUndefined => strip_nullish rest
      | _ => (k, strip_condition c') :: strip_nullish rest
      end
  end.

(** The arguments of a call pass the checks that the metadata of the
    method asks for: every [min] and [max] parameter is a number within
    the bound and every [integer] parameter is a safe integer. *)
Definition arguments_valid `{Host} (target : NumberValidation.metadata)
    (propertyName : string) (arguments : list value) : bool :=
  forallb (λ parameter,
             let actualValue := js_index arguments (NumberValidation.config_index parameter) in
             isNumber actualValue
             && negb (js_lt actualValue (NumberValidation.config_value_of parameter)))
          (NumberValidation.getOwnMetadata NumberValidation.minMetadataKey target propertyName)
  && forallb (λ parameter,
                let actualValue := js_index arguments (NumberValidation.config_index parameter) in
                isNumber actualValue
                && negb (js_gt actualValue (NumberValidation.config_value_of parameter)))
             (NumberValidation.getOwnMetadata NumberValidation.maxMetadataKey target propertyName)
  && forallb (λ parameter,
                isSafeInteger (js_index arguments (NumberValidation.config_index parameter)))
             (NumberValidation.getOwnMetadata NumberValidation.integerMetadataKey target
                propertyName).

(** ** A host and data to evaluate on *)

(** The order in which V8 ([third_party/v8/builtins/array-sort.tq]) leaves
    an array of fewer than 64 elements, which is one run: the run at the
    start of the array is counted, and reversed when it descends, and each
    later element is put in its place by a binary search. *)
Section ShortArraySort.
Context {A : Type} (comparefn : A → A → Z).

(** How far the run goes on after [previous]. *)
Fixpoint run_after (descending : bool) (previous : A) (rest : list A) : nat :=
  match rest with
  | [] => 0
  | current :: rest' =>
      let order := comparefn current previous in
      if (if descending then (0 <=? order)%Z else (order <? 0)%Z) then 0
      else S (run_after descending current rest')
  end.

(** [CountAndMakeRun]: the length of the run and the array after it. *)
Definition count_and_make_run (xs : list A) : nat * list A :=
  match xs with
  | elementHigh :: elementLow :: rest =>
      let isDescending := (comparefn elementLow elementHigh <? 0)%Z in
      let runLength := 2 + run_after isDescending elementLow rest in
      (runLength,
       if isDescending then (reverse (take runLength xs) ++ drop runLength xs)%list
       else xs)
  | _ => (length xs, xs)
  end.

(** The place of [pivot] in the ordered part: the loop on [left] and
    [right], which halves their distance at each turn. *)
Fixpoint binary_search (turns : nat) (pivot : A) (ordered : list A)
    (left right : nat) : nat :=
  match turns with
  | 0 => left
  | S turns' =>
      if (left <? right)%nat
      then
        let mid := left + (right - left) / 2 in
        match ordered !! mid with
        | Some element =>
            if (comparefn pivot element <? 0)%Z
            then binary_search turns' pivot ordered left mid
            else binary_search turns' pivot ordered (mid + 1) right
        | None => left
        end
      else left
  end.

(** [BinaryInsertionSort] from position [start]. *)
Definition binary_insertion_sort (start : nat) (xs : list A) : list A :=
  foldl (λ ordered pivot,
           let left := binary_search (S (length ordered)) pivot ordered 0
                                     (length ordered) in
           (take left ordered ++ pivot :: drop left ordered)%list)
        (take start xs) (drop start xs).

Definition short_array_sort (xs : list A) : list A :=
  let '(runLength, xs') := count_and_make_run xs in
  binary_insertion_sort runLength xs'.

End ShortArraySort.

(** A host with these functions: [0] is
    [(v) => typeof v === 'number' && v >= 0], [1] is [(v) => v], any
    other returns [undefined]. Its strings do not denote numbers, its
    objects convert to ["[object Object]"], and its [sort] is that of V8
    on fewer than 64 elements (a longer array is not evaluated on it). *)
#[global] Instance sample_host : Host := {|
  call f v :=
    match f with
    | 0 => match v with
           | VNumber n => VBoolean (SFleb (S754_zero false) n)
           | _ => VBoolean false
           end
    | 1 => v
    | _ => VUndefined
    end;
  to_primitive _ := VString "[object Object]";
  string_to_number _ := S754_nan;
  number_to_string _ := "NaN";
  sort_order comparefn n :=
    if (n <? 64)%nat then short_array_sort comparefn (seq 0 n) else seq 0 n;
|}.

Definition num (z : Z) : value := VNumber (number_of_Z z).

(** [1.5] *)
Definition one_and_a_half : value :=
  VNumber (binary_normalize 53 1024 3 (-1) false).

(** The rows [{id:'1',p:1}, {id:'2',p:3}, {id:'3',p:0}]. *)
Definition sample_row (r : ref) (id : string) (p : Z) : value :=
  VObject r [("id", VString id); ("p", num p)].

Definition sample_rows : list value :=
  [sample_row 1 "1" 1; sample_row 2 "2" 3; sample_row 3 "3" 0].

(** A query on them after [skip(1)] and [limit(1)]. *)
Definition sample_query : Query :=
  {| rows := sample_rows; columns := []; startAt := num 1;
     limitValue := num 1; ignoreNullValues := false |}.

(** A query on the one row [{a: null}]. *)
Definition null_field_row : value := VObject 1 [("a", VNull)].

Definition null_field_query : Query := Query.from [null_field_row].



(** Rows whose field [p] holds null, 1 and undefined, and a row that has
    no field [p]. *)
Definition nullable_rows : list value :=
  [VObject 1 [("id", num 1); ("p", VNull)];
   VObject 2 [("id", num 2); ("p", num 1)];
   VObject 3 [("id", num 3); ("p", VUndefined)];
   VObject 4 [("id", num 4)]].

(** The rows [{id:0,x:3,y:0}, {id:1,x:1,y:0}, {id:2,y:0}, {id:3,x:2,y:0}]:
    the third has no field [x]. *)
Definition gap_row (r : ref) (id : Z) (x : option Z) : value :=
  VObject r ((("id", num id) :: from_option (λ x, [("x", num x)]) [] x)
             ++ [("y", num 0)])%list.

Definition gap_rows : list value :=
  [gap_row 1 0 (Some 3%Z); gap_row 2 1 (Some 1%Z); gap_row 3 2 None;
   gap_row 4 3 (Some 2%Z)].

(** The row [{foo: {bar: 'b', foo: {bar: 'c'}}}]. *)
Definition nested_row : value :=
  VObject 1 [("foo", VObject 2 [("bar", VString "b");
                                ("foo", VObject 3 [("bar", VString "c")])])].

(** The coordinates of the ordering tests. *)
Definition coord (r : ref) (x y : Z) : value :=
  VObject r [("x", num x); ("y", num y)].

Definition coords : list value :=
  [coord 1 2 2; coord 2 1 4; coord 3 2 3; coord 4 1 1;
   coord 5 1 3; coord 6 1 2; coord 7 2 4; coord 8 2 1].

(** Running one call after another on a query. *)
Definition then_ {A} (first_call : M Query unit) (next : M Query A) : M Query A :=
  _ ← first_call; next.

(** The sample rows in the order of [p], and a query that selects [id]
    and [p] on the sample rows. *)
Definition ordered_rows : list value :=
  [sample_row 3 "3" 0; sample_row 1 "1" 1; sample_row 2 "2" 3].

Definition selecting_query : Query :=
  {| rows := sample_rows; columns := ["id"; "p"]; startAt := num 0;
     limitValue := VUndefined; ignoreNullValues := false |}.

(** ** Proofs *)

(** *** Induction on values *)

Lemma value_nested_ind (P : value → Prop) :
  P VUndefined → P VNull → (∀ b, P (VBoolean b)) → (∀ n, P (VNumber n)) →
  (∀ s, P (VString s)) → (∀ f, P (VFunction f)) →
  (∀ r items, Forall (from_option P True) items → P (VArray r items)) →
  (∀ r props, Forall (λ p, P p.2) props → P (VObject r props)) →
  ∀ v, P v.
Proof.
  intros Hu Hn Hb Hnum Hs Hf Ha Ho.
  fix IH 1. intros [| |b|n|s|f|r items|r props].
  - exact Hu.
  - exact Hn.
  - apply Hb.
  - apply Hnum.
  - apply Hs.
  - apply Hf.
  - apply Ha. induction items as [|x items IHitems]; constructor.
    + destruct x as [x|]; [apply IH | exact I].
    + exact IHitems.
  - apply Ho. induction props as [|[k c] props IHprops]; constructor.
    + apply IH.
    + exact IHprops.
Qed.

(** *** Arrays *)

Lemma js_element_position_at xs i : js_element xs i = position_at xs i.
Proof. unfold js_element, position_at. by destruct (xs !! i) as [[v|]|]. Qed.

(** What [compareArrays] decides: the lengths are equal and every element
    that [a] has is [===] to what [b] reads at its index. *)
Lemma compareArrays_elements (a b : list (option value)) :
  compareArrays a b = true
  ↔ length a = length b
    ∧ ∀ i v, a !! i = Some (Some v) → strict_equals v (position_at b i) = true.
Proof.
  unfold compareArrays. rewrite andb_true_iff, Nat.eqb_eq.
  apply and_iff_compat_l.
  rewrite forallb_forall. split.
  - intros Hall i v Hi. rewrite <- js_element_position_at.
    apply (Hall (strict_equals v (js_element b i))).
    apply list_elem_of_In, list_elem_of_lookup. exists i.
    by rewrite list_lookup_imap, Hi.
  - intros Hall x [i Hi]%list_elem_of_In%list_elem_of_lookup.
    rewrite list_lookup_imap in Hi.
    destruct (a !! i) as [[v|]|] eqn:Hai; simpl in Hi; try done.
    + injection Hi as <-. rewrite js_element_position_at. by apply Hall.
    + by injection Hi as <-.
Qed.

(** On an array without a hole this is the match element by element. *)
Lemma compareArrays_matching (a b : list (option value)) :
  Forall is_Some a →
  compareArrays a b = true ↔ matching_elementwise a b.
Proof.
  intros Hdense. rewrite compareArrays_elements. unfold matching_elementwise.
  split; intros [Hlen Hall]; (split; [done|]).
  - intros i Hi. rewrite <- Hlen in Hi.
    destruct (lookup_lt_is_Some_2 a i Hi) as [x Hx].
    destruct (proj1 (Forall_lookup _ _) Hdense i x Hx) as [v ->].
    unfold position_at at 1. rewrite Hx. by apply Hall.
  - intros i v Hi. specialize (Hall i).
    unfold position_at at 1 in Hall. rewrite Hi in Hall. apply Hall.
    rewrite <- Hlen. by eapply lookup_lt_Some.
Qed.

(** *** Reading a field *)

Lemma assoc_list_find k props :
  assoc k props = (λ found, found.2.2) <$> list_find (λ p, p.1 = k) props.
Proof.
  induction props as [|[k' v] props IH]; [done|].
  cbn [assoc list_find]. destruct (String.eqb_spec k' k) as [->|Hne].
  - by rewrite decide_True.
  - rewrite decide_False by done. rewrite IH.
    by destruct (list_find (λ p, p.1 = k) props) as [[i [k'' v']]|].
Qed.

Lemma assoc_array_entries_from k items :
  ∀ j,
    default VUndefined
      (assoc k (omap id (imap (λ i element, (λ v, (pretty (j + i), v)) <$> element) items)))
    = from_option (λ found, position_at items (found.2 - j)) VUndefined
        (list_find (λ i, pretty i = k) (seq j (length items))).
Proof.
  induction items as [|element items IH]; intros j; [done|].
  rewrite imap_cons.
  rewrite (imap_ext _ (λ i element, (λ v, (pretty (S j + i), v)) <$> element))
    by (intros i x _; cbn; by rewrite Nat.add_succ_r).
  specialize (IH (S j)). cbn [length seq list_find]. rewrite Nat.add_0_r.
  destruct (decide (pretty j = k)) as [Hk|Hk].
  - cbn [from_option snd]. rewrite Nat.sub_diag.
    destruct element as [v|]; cbn [fmap option_fmap option_map omap list_omap id].
    + cbn [assoc]. by rewrite (proj2 (String.eqb_eq _ _) Hk).
    + rewrite IH.
      destruct (list_find (λ i, pretty i = k) (seq (S j) (length items)))
        as [[idx i]|] eqn:Hfind; [|done].
      apply list_find_Some in Hfind as (Hi & Hpretty & _).
      apply lookup_seq in Hi as [-> _].
      rewrite <- Hk in Hpretty. apply (inj pretty) in Hpretty. lia.
  - assert (Hrest : from_option (λ found, position_at (element :: items) (found.2 - j))
                      VUndefined
                      (prod_map S id
                         <$> list_find (λ i, pretty i = k) (seq (S j) (length items)))
                    = from_option (λ found, position_at items (found.2 - S j)) VUndefined
                        (list_find (λ i, pretty i = k) (seq (S j) (length items)))).
    { destruct (list_find (λ i, pretty i = k) (seq (S j) (length items)))
        as [[idx i]|] eqn:Hfind; [|done].
      apply list_find_Some in Hfind as (Hi & _ & _).
      apply lookup_seq in Hi as [-> _]. cbn.
      by replace (S (j + idx) - j) with (S (j + idx - j)) by lia. }
    rewrite Hrest, <- IH.
    destruct element as [v|]; cbn [fmap option_fmap option_map omap list_omap id];
      [|done].
    cbn [assoc]. by rewrite (proj2 (String.eqb_neq _ _) Hk).
Qed.

(** The property read by the code is the field of the specification. *)
Lemma get_prop_field r k : get_prop r k = field r k.
Proof.
  unfold get_prop, field, own_prop.
  destruct r as [| | | | | |r items|r props]; try done.
  - destruct (String.eqb_spec k "length") as [->|Hk].
    + by rewrite decide_True.
    + rewrite decide_False by done. unfold array_entries.
      pose proof (assoc_array_entries_from k items 0) as Hfrom.
      cbn [Nat.add] in Hfrom. rewrite Hfrom.
      destruct (list_find (λ i, pretty i = k) (seq 0 (length items))) as [[idx i]|];
        [|done].
      cbn. by rewrite Nat.sub_0_r.
  - rewrite assoc_list_find.
    by destruct (list_find (λ p, p.1 = k) props).
Qed.



(** *** The condition matcher *)

Section MatcherProofs.
Context `{Host}.
Import QueryRowValidator.

Lemma validateColumnCondition_object ignoreNulls row k r props :
  validateColumnCondition ignoreNulls row k (VObject r props)
  = if isObject (get_prop row k)
    then validate (get_prop row k) props ignoreNulls
    else false.
Proof.
  unfold validate, validateConditions, getEntries. simpl.
  rewrite andb_false_r. destruct (isObject (get_prop row k)); [|done].
  induction props as [|[k' c'] props IH]; simpl; [done|].
  by rewrite IH.
Qed.

Lemma validate_Forall ignoreNulls row (c : conditions) :
  validate row c ignoreNulls = true
  ↔ Forall (λ entry, validateColumnCondition ignoreNulls row entry.1 entry.2 = true) c.
Proof.
  unfold validate, validateConditions, getEntries.
  rewrite forallb_forall, Forall_forall. split.
  - intros Hall [k cond] Hin. apply (Hall (k, cond)). by apply list_elem_of_In.
  - intros Hall [k cond] Hin. apply (Hall (k, cond)). by apply list_elem_of_In.
Qed.

Lemma validate_forall ignoreNulls row (c : conditions) :
  validate row c ignoreNulls = true
  ↔ ∀ k cond, (k, cond) ∈ c → validateColumnCondition ignoreNulls row k cond = true.
Proof.
  rewrite validate_Forall, Forall_forall. split.
  - intros Hall k cond Hin. apply (Hall _ Hin).
  - intros Hall [k cond] Hin. by apply Hall.
Qed.



End MatcherProofs.

(** *** Numbers and [slice] *)

Lemma integer_value_ToIntegerOrInfinity n z :
  integer_value n = Some z → ToIntegerOrInfinity n = Finite z.
Proof.
  destruct n as [s| | |s m e]; simpl; try done.
  - by intros [= <-].
  - destruct (Z.leb_spec 0 e) as [He|He].
    + intros [= <-]. by rewrite Z.shiftl_mul_pow2.
    + destruct (Z.eqb_spec (Z.pos m mod 2 ^ (- e)) 0) as [Hm|Hm]; [|done].
      intros [= <-]. rewrite <- (Z.opp_involutive e) at 1.
      rewrite Z.shiftl_opp_r, Z.shiftr_div_pow2 by lia. done.
Qed.

Lemma relative_index_nat len (n : nat) :
  relative_index len (Finite (Z.of_nat n)) = n `min` len.
Proof.
  unfold relative_index. destruct (Z.ltb_spec (Z.of_nat n) 0); lia.
Qed.

Lemma take_min_length {A} (l : list A) n : take (n `min` length l) l = take n l.
Proof.
  destruct (Nat.le_ge_cases n (length l)).
  - by rewrite Nat.min_l.
  - rewrite Nat.min_r by done. by rewrite !take_ge.
Qed.

Lemma drop_min_length {A} (l : list A) n : drop (n `min` length l) l = drop n l.
Proof.
  destruct (Nat.le_ge_cases n (length l)).
  - by rewrite Nat.min_l.
  - rewrite Nat.min_r by done. by rewrite !drop_ge.
Qed.

Section SliceProofs.
Context `{Host}.

Lemma js_slice_from rows start s :
  number_is start (Z.of_nat s) →
  js_slice rows start VUndefined = drop s rows.
Proof.
  destruct start; try done. simpl. intros Hs%integer_value_ToIntegerOrInfinity.
  unfold js_slice. simpl. rewrite Hs, relative_index_nat, drop_min_length.
  apply take_ge. rewrite length_drop. lia.
Qed.

Lemma js_slice_to rows limit l :
  limit_is limit l →
  js_slice rows (VNumber (S754_zero false)) limit
  = match l with Some l => take l rows | None => rows end.
Proof.
  unfold js_slice. simpl.
  replace (Z.to_nat (0 `min` Z.of_nat (length rows))) with 0 by lia.
  rewrite Nat.sub_0_r. simpl.
  destruct l as [l|]; simpl.
  - destruct limit; try done. simpl. intros Hl%integer_value_ToIntegerOrInfinity.
    rewrite Hl, relative_index_nat. apply take_min_length.
  - intros ->. by apply take_ge.
Qed.

Lemma getLimitedRows_window this s l :
  number_is (startAt this) (Z.of_nat s) →
  limit_is (limitValue this) l →
  Query.getLimitedRows this = (this, Normal (window s l (rows this))).
Proof.
  intros Hs Hl. unfold Query.getLimitedRows, get, mbind, M_bind, mret, M_ret.
  rewrite (js_slice_from _ _ s Hs), (js_slice_to _ _ l Hl).
  by destruct l.
Qed.

End SliceProofs.

(** *** Filtering *)

Section FilterProofs.
Context `{Host}.

Lemma filterRows_conditions this (c : conditions) :
  Query.filterRows (Conditions c) this
  = (set_rows (filter (λ row, QueryRowValidator.validate row c (ignoreNullValues this) = true)
                      (rows this)) this,
     Normal ()).
Proof. done. Qed.

Lemma validate_single row k c ignoreNulls :
  QueryRowValidator.validate row [(k, c)] ignoreNulls
  = QueryRowValidator.validateColumnCondition ignoreNulls row k c.
Proof.
  unfold QueryRowValidator.validate, QueryRowValidator.validateConditions.
  simpl. apply andb_true_r.
Qed.

Lemma where_single this k c :
  ignoreNullValues this = false →
  Query.where_ (Conditions [(k, c)]) this
  = (set_rows (filter (λ row, QueryRowValidator.validateColumnCondition false row k c = true)
                      (rows this)) this,
     Normal ()).
Proof.
  intros Hmode. unfold Query.where_. rewrite filterRows_conditions, Hmode.
  do 2 f_equal. apply list_filter_iff. intros row. by rewrite validate_single.
Qed.

Lemma filter_true (l : list value) (P : value → Prop) `{∀ x, Decision (P x)} :
  (∀ x, P x) → filter P l = l.
Proof.
  intros HP. induction l as [|x l IH]; [done|].
  rewrite filter_cons_True by done. by rewrite IH.
Qed.


End FilterProofs.

(** *** The claims on the condition matcher and on filtering *)

Section MatcherClaims.
Context `{Host}.


(** C3. [filterWhere({k: null})] leaves the working row set (and the
    rest of the state) unchanged, while [where({k: null})] retains
    exactly the rows [r] with [r[k] === null], in their order, and
    changes nothing else. *)
Theorem filterWhere_null_identity_where_null_literal (this : Query) (k : string) :
  ignoreNullValues this = false →
  Query.filterWhere [(k, VNull)] this = (this, Normal ())
  ∧ ∃ after,
      Query.where_ (Conditions [(k, VNull)]) this = (after, Normal ())
      ∧ rows after = filter (λ r, holds_null r k = true) (rows this)
      ∧ columns after = columns this
      ∧ startAt after = startAt this
      ∧ limitValue after = limitValue this
      ∧ ignoreNullValues after = false.
Proof.
  intros Hmode. split.
  - unfold Query.filterWhere, get, put, mbind, M_bind.
    rewrite filterRows_conditions. simpl.
    rewrite filter_true.
    + destruct this; simpl in *. by subst.
    + intros row. by rewrite validate_single.
  - rewrite where_single by done. eexists. split; [done|].
    split; [|done]. cbn [rows set_rows].
    apply list_filter_iff. intros row. simpl.
    unfold holds_null. rewrite get_prop_field. by destruct (field row k).
Qed.


(** C10. In the non-tolerant [where], a key whose condition is
    [undefined] is enumerated and evaluated: the skip applies only in
    the tolerant mode, the condition reaches the strict equality, and
    [where({k: undefined})] retains exactly the rows whose field [k] is
    absent or undefined, in their order, and changes nothing else. *)
Theorem where_undefined_condition (this : Query) (k : string) :
  ignoreNullValues this = false →
  (k, VUndefined) ∈ getEntries [(k, VUndefined)]
  ∧ (∀ row, QueryRowValidator.validateColumnCondition false row k VUndefined
            = strict_equals (field row k) VUndefined)
  ∧ (∀ row, QueryRowValidator.validateColumnCondition true row k VUndefined = true)
  ∧ ∃ after,
      Query.where_ (Conditions [(k, VUndefined)]) this = (after, Normal ())
      ∧ rows after = filter (λ r, absent_or_undefined r k = true) (rows this)
      ∧ columns after = columns this
      ∧ startAt after = startAt this
      ∧ limitValue after = limitValue this
      ∧ ignoreNullValues after = false.
Proof.
  intros Hmode. split; [by apply list_elem_of_singleton|].
  split; [intros row; simpl; by rewrite get_prop_field|]. split; [done|].
  rewrite where_single by done. eexists. split; [done|].
  split; [|done]. cbn [rows set_rows].
  apply list_filter_iff. intros row. simpl. rewrite get_prop_field.
  unfold absent_or_undefined.
  destruct row as [| | | | | |r items|r props]; try (cbn [field strict_equals]; done).
  cbn [field].
  by destruct (list_find (λ p, p.1 = k) props) as [[idx [k' []]]|].
Qed.

End MatcherClaims.

(** *** The extraction operations *)

Section ExtractionProofs.
Context `{Host}.

Lemma getLimitedRows_limited this :
  Query.getLimitedRows this = (this, Normal (limited this)).
Proof. done. Qed.

Lemma all_limited this : Query.all this = (this, Normal (limited this)).
Proof. done. Qed.

Lemma count_limited this : Query.count this = (this, Normal (length (limited this))).
Proof. done. Qed.

Lemma exists_limited this :
  Query.exists_ this = (this, Normal (0 <? length (limited this))%nat).
Proof. done. Qed.

Lemma first_limited this :
  Query.first this = (this, Normal (from_option id VNull (head (limited this)))).
Proof.
  unfold Query.first, mbind, M_bind, mret, M_ret.
  rewrite getLimitedRows_limited. by destruct (limited this).
Qed.

Lemma getFirstColumn_limited this :
  Query.getFirstColumn this
  = (this, Normal match columns this with
                  | column :: _ => Some column
                  | [] =>
                      match limited this with
                      | row :: _ =>
                          if to_boolean row then head (object_keys row) else None
                      | [] => None
                      end
                  end).
Proof.
  unfold Query.getFirstColumn, mbind, M_bind, mret, M_ret, get.
  destruct (columns this) as [|column others]; [|done].
  cbn [length Nat.eqb negb]. rewrite first_limited.
  destruct (limited this) as [|row others]; simpl; [done|].
  destruct (to_boolean row); [|done]. by destruct (object_keys row).
Qed.

Lemma scalar_state this : (Query.scalar this).1 = this.
Proof.
  unfold Query.scalar, mbind, M_bind, mret, M_ret.
  rewrite first_limited, getFirstColumn_limited. done.
Qed.

Lemma column_state this : (Query.column this).1 = this.
Proof.
  unfold Query.column, mbind, M_bind, mret, M_ret.
  rewrite getFirstColumn_limited.
  destruct (columns this) as [|column others].
  - destruct (limited this) as [|row others] eqn:Hrows; [done|].
    destruct (to_boolean row); [|done].
    destruct (head (object_keys row)) as [name|]; [|done].
    by destruct (Query.column_truthy (Some name)).
  - by destruct (Query.column_truthy (Some column)).
Qed.

End ExtractionProofs.

Section ExtractionClaims.
Context `{Host}.

(** C2. With [startAt = s] and [limitValue = l] (possibly unset), [all()]
    returns [rows[s .. s+l)] clipped to the available length, [count()]
    its length, and [exists()] is true exactly when that length is
    positive; every call computes the window from the current state. A
    new query has [s = 0] and no limit, so [all()] returns its rows. *)
Theorem window_of_all_count_exists (this : Query) (s : nat) (l : option nat) :
  number_is (startAt this) (Z.of_nat s) →
  limit_is (limitValue this) l →
  Query.all this = (this, Normal (window s l (rows this)))
  ∧ (∀ i, window s l (rows this) !! i
          = match l with
            | Some l => if decide (i < l) then rows this !! (s + i) else None
            | None => rows this !! (s + i)
            end)
  ∧ Query.count this = (this, Normal (length (window s l (rows this))))
  ∧ (∃ b, Query.exists_ this = (this, Normal b)
          ∧ (b = true ↔ 0 < length (window s l (rows this))))
  ∧ (∀ input, Query.all (Query.from input) = (Query.from input, Normal input)).
Proof.
  intros Hs Hl.
  assert (Hlimited : limited this = window s l (rows this)).
  { pose proof (getLimitedRows_window this s l Hs Hl) as Hw.
    rewrite getLimitedRows_limited in Hw. congruence. }
  split; [by rewrite all_limited, Hlimited|].
  split.
  { intros i. destruct l as [l|]; simpl.
    - rewrite lookup_take. case_decide; [|done]. apply lookup_drop.
    - apply lookup_drop. }
  split; [by rewrite count_limited, Hlimited|].
  split.
  { eexists. split; [by rewrite exists_limited, Hlimited|].
    by rewrite Nat.ltb_lt. }
  intros input.
  pose proof (getLimitedRows_window (Query.from input) 0 None) as Hw.
  unfold Query.all. rewrite Hw; done.
Qed.

(** C6, as amended. [scalar()] returns the value of the first selected
    column (or, when none is selected, of the first own field of the
    first windowed row) of the first windowed row when that value is
    neither null nor undefined, and false when it is null or undefined,
    when there is no windowed row and when there is no column. Rows are
    objects and the column name is not the empty string. *)
Theorem scalar_first_value_or_false (this : Query) (windowed : list value) :
  Query.all this = (this, Normal windowed) →
  (∀ row, head windowed = Some row →
          isObject row = true ∧ first_column_of this row ≠ Some "") →
  Query.scalar this = (this, Normal (scalar_or_false this windowed)).
Proof.
  rewrite all_limited. intros [= <-] Hrow.
  unfold Query.scalar, mbind, M_bind, mret, M_ret.
  rewrite first_limited, getFirstColumn_limited.
  unfold scalar_or_false, first_column_of in *.
  destruct (limited this) as [|row others]; simpl.
  - by destruct (columns this).
  - destruct (Hrow row eq_refl) as [Hobj Hname].
    assert (to_boolean row = true) as -> by (by destruct row).
    destruct (columns this) as [|column others'].
    + destruct (head (object_keys row)) as [name|]; [|done].
      simpl. destruct (String.eqb_spec name ""); [congruence | done].
    + simpl. destruct (String.eqb_spec column ""); [congruence | done].
Qed.

(** C8. Every extraction operation leaves the whole state of the query
    unchanged and returns the same result when it is called again. *)
Theorem extraction_preserves_state (this : Query) :
  ((Query.all this).1 = this ∧ (Query.all (Query.all this).1).2 = (Query.all this).2)
  ∧ ((Query.first this).1 = this
     ∧ (Query.first (Query.first this).1).2 = (Query.first this).2)
  ∧ ((Query.last this).1 = this
     ∧ (Query.last (Query.last this).1).2 = (Query.last this).2)
  ∧ ((Query.count this).1 = this
     ∧ (Query.count (Query.count this).1).2 = (Query.count this).2)
  ∧ ((Query.exists_ this).1 = this
     ∧ (Query.exists_ (Query.exists_ this).1).2 = (Query.exists_ this).2)
  ∧ ((Query.scalar this).1 = this
     ∧ (Query.scalar (Query.scalar this).1).2 = (Query.scalar this).2)
  ∧ ((Query.column this).1 = this
     ∧ (Query.column (Query.column this).1).2 = (Query.column this).2)
  ∧ ((Query.values this).1 = this
     ∧ (Query.values (Query.values this).1).2 = (Query.values this).2).
Proof.
  assert (Hfirst : (Query.first this).1 = this) by (by rewrite first_limited).
  repeat split; rewrite ?Hfirst, ?scalar_state, ?column_state; done.
Qed.

End ExtractionClaims.

(** *** The sort *)

Local Open Scope list_scope.

Section SortModel.
Context {A : Type}.
Variable comparefn : A → A → Z.

Lemma stable_insert_split x sorted :
  ∃ before after,
    sorted = before ++ after
    ∧ stable_insert comparefn x sorted = before ++ x :: after
    ∧ Forall (λ y, (0 < comparefn x y)%Z) before.
Proof.
  induction sorted as [|y rest IH]; simpl.
  - by exists [], [].
  - destruct (Z.ltb_spec 0 (comparefn x y)) as [Hgt|Hle].
    + destruct IH as (before & after & -> & -> & Hall).
      exists (y :: before), after. repeat split; by try constructor.
    + by exists [], (y :: rest).
Qed.

Lemma stable_insert_Permutation x sorted :
  stable_insert comparefn x sorted ≡ₚ x :: sorted.
Proof.
  destruct (stable_insert_split x sorted) as (before & after & -> & -> & _).
  by rewrite Permutation_middle.
Qed.

Lemma stable_sort_Permutation xs : stable_sort comparefn xs ≡ₚ xs.
Proof.
  induction xs as [|x xs IH]; simpl; [done|].
  by rewrite stable_insert_Permutation, IH.
Qed.

(** A later element passes an earlier one only when the comparator puts
    it strictly before: two elements that the comparator does not put in
    the other order keep their order. *)
Lemma stable_sort_stable xs a b :
  [a; b] `sublist_of` xs →
  (comparefn a b <= 0)%Z →
  [a; b] `sublist_of` stable_sort comparefn xs.
Proof.
  intros Hsub Hab. induction xs as [|x xs IH]; simpl; [by inversion Hsub|].
  destruct (stable_insert_split x (stable_sort comparefn xs))
    as (before & after & Hsorted & -> & Hpassed).
  apply sublist_cons_r in Hsub as [Hsub|(tail & [= <- <-] & Hb)].
  - specialize (IH Hsub). rewrite Hsorted in IH.
    etrans; [exact IH|]. apply sublist_app; [done|]. by apply sublist_cons.
  - apply sublist_inserts_l, sublist_skip.
    assert (Hin : b ∈ before ++ after).
    { rewrite <- Hsorted, stable_sort_Permutation.
      eapply sublist_cons_l in Hb as (k1 & k2 & -> & _).
      apply elem_of_app. right. apply list_elem_of_here. }
    apply elem_of_app in Hin as [Hin|Hin].
    + rewrite Forall_forall in Hpassed. specialize (Hpassed _ Hin). lia.
    + apply list_elem_of_split in Hin as (l1 & l2 & ->).
      apply sublist_inserts_l, sublist_skip, sublist_nil_l.
Qed.

(** When the comparator never puts two elements strictly after each
    other, consecutive elements of the result are in order. *)
Hypothesis comparefn_flip : ∀ x y, (0 < comparefn x y)%Z → (comparefn y x <= 0)%Z.

Lemma stable_insert_Sorted x sorted :
  Sorted (λ a b, (comparefn a b <= 0)%Z) sorted →
  Sorted (λ a b, (comparefn a b <= 0)%Z) (stable_insert comparefn x sorted).
Proof.
  induction 1 as [|y rest Hrest IH Hhd]; simpl.
  - by repeat constructor.
  - destruct (Z.ltb_spec 0 (comparefn x y)) as [Hgt|Hle].
    + constructor; [done|].
      destruct rest as [|z rest]; simpl in *.
      * constructor. by apply comparefn_flip.
      * destruct (Z.ltb_spec 0 (comparefn x z)).
        -- constructor. by inversion Hhd.
        -- constructor. by apply comparefn_flip.
    + constructor; [by constructor|]. by constructor.
Qed.

Lemma stable_sort_Sorted xs :
  Sorted (λ a b, (comparefn a b <= 0)%Z) (stable_sort comparefn xs).
Proof.
  induction xs as [|x xs IH]; simpl; [constructor|].
  by apply stable_insert_Sorted.
Qed.

End SortModel.

(** *** The comparators *)

Lemma SFcompare_antisym x y :
  SFcompare y x = CompOpp <$> SFcompare x y.
Proof.
  destruct x as [s| s| |s m e], y as [s'|s'| |s' m' e'];
    try destruct s; try destruct s'; simpl; try done.
  - rewrite (Z.compare_antisym e e'). destruct (e ?= e')%Z; simpl; try done.
    by rewrite (Pos.compare_cont_antisym m m' Eq).
  - rewrite (Z.compare_antisym e e'). destruct (e ?= e')%Z; simpl; try done.
    by rewrite (Pos.compare_cont_antisym m m' Eq).
Qed.

Lemma SFltb_asym x y : SFltb x y = true → SFltb y x = false.
Proof.
  unfold SFltb. rewrite (SFcompare_antisym x y).
  by destruct (SFcompare x y) as [[]|].
Qed.

Lemma code_units_lt_asym a :
  ∀ b, code_units_lt a b = true → code_units_lt b a = false.
Proof.
  induction a as [|x a IH]; intros [|y b]; simpl; try done.
  destruct (N.ltb_spec x y) as [Hxy|Hxy]; simpl.
  - intros _. destruct (N.ltb_spec y x); [lia|]. simpl.
    destruct (N.eqb_spec y x); [lia | done].
  - destruct (N.eqb_spec x y) as [->|]; [|done]. simpl. intros Hab%IH.
    rewrite N.ltb_irrefl, N.eqb_refl. done.
Qed.

Ltac compare_cases :=
  repeat match goal with
         | |- context [(?x ?= ?y)%Z] => destruct (Z.compare_spec x y)
         | |- context [PosDef.Pos.compare_cont Eq ?p ?q] =>
             change (PosDef.Pos.compare_cont Eq p q) with (Pos.compare p q);
             destruct (Pos.compare_spec p q)
         end.

Lemma SFcompare_Lt_trans a b c :
  SFcompare a b = Some Lt → SFcompare b c = Some Lt → SFcompare a c = Some Lt.
Proof.
  destruct a as [[]|[]| |[] ma ea], b as [[]|[]| |[] mb eb], c as [[]|[]| |[] mc ec];
    simpl; try done.
  - compare_cases; simpl; try done; try lia.
  - compare_cases; simpl; try done; try lia.
Qed.

Lemma SFcompare_Eq_l a b c :
  SFcompare a b = Some Eq → SFcompare a c = SFcompare b c.
Proof.
  destruct a as [[]|[]| |[] ma ea], b as [[]|[]| |[] mb eb]; simpl; try done.
  - compare_cases; try done. by subst.
  - compare_cases; try done. by subst.
Qed.

Lemma SFcompare_total a b :
  a ≠ S754_nan → b ≠ S754_nan → ∃ c, SFcompare a b = Some c.
Proof. destruct a, b; simpl; try done; eauto. Qed.

(** Not-greater composes, and the outcome is that of the strict step. *)
Lemma SFcompare_trans a b c c1 c2 :
  SFcompare a b = Some c1 → SFcompare b c = Some c2 →
  c1 ≠ Gt → c2 ≠ Gt →
  SFcompare a c = Some match c1 with Eq => c2 | _ => Lt end.
Proof.
  intros Hab Hbc H1 H2. destruct c1; [|clear H1|done].
  - by rewrite (SFcompare_Eq_l a b c Hab).
  - destruct c2; [|by apply (SFcompare_Lt_trans a b c)|done].
    assert (Hcb : SFcompare c b = Some Eq)
      by (by rewrite (SFcompare_antisym b c), Hbc).
    rewrite (SFcompare_antisym c a), (SFcompare_Eq_l c b a Hcb),
      (SFcompare_antisym a b), Hab. done.
Qed.

Section ComparatorProofs.
Context `{Host}.

Lemma js_lt_asym x y : js_lt x y = true → js_lt y x = false.
Proof.
  unfold js_lt.
  destruct (ToPrimitive x) as [| | | | | | |], (ToPrimitive y) as [| | | | | | |];
    auto using SFltb_asym, code_units_lt_asym.
Qed.

Lemma compare_property_antisym property a b :
  compare_property property b a = (- compare_property property a b)%Z.
Proof.
  unfold compare_property, js_gt.
  destruct (js_lt (get_prop a property) (get_prop b property)) eqn:Hab.
  - by rewrite (js_lt_asym _ _ Hab).
  - by destruct (js_lt (get_prop b property) (get_prop a property)).
Qed.

(** The whole of [sortByProperty]: the comparison on the named property,
    negated under a ["-"] prefix. *)
Lemma sortByProperty_ascending property a b :
  is_dash_prefixed property = false →
  sortByProperty property a b = compare_property property a b.
Proof.
  unfold sortByProperty. destruct property as [|c rest]; simpl.
  - intros _. lia.
  - destruct (Ascii.eqb_spec c "-") as [->|Hc]; [done|].
    intros _.
    assert (sortByProperty (String c rest) a b
            = (compare_property (String c rest) a b * 1)%Z) as Hrun.
    { unfold sortByProperty.
      destruct c as [[] [] [] [] [] [] [] []]; try done. }
    unfold sortByProperty in Hrun. rewrite Hrun. lia.
Qed.

Lemma sortByProperty_descending property a b :
  sortByProperty (String "-" property) a b = (- compare_property property a b)%Z.
Proof. unfold sortByProperty. lia. Qed.

Lemma sortByProperty_antisym property a b :
  sortByProperty property b a = (- sortByProperty property a b)%Z.
Proof.
  destruct (is_dash_prefixed property) eqn:Hdash.
  - destruct property as [|c rest]; [done|]. simpl in Hdash.
    apply Ascii.eqb_eq in Hdash as ->.
    rewrite !sortByProperty_descending, compare_property_antisym. lia.
  - rewrite !sortByProperty_ascending by done. apply compare_property_antisym.
Qed.

Lemma sortByProperties_cons property props a b :
  sortByProperties (property :: props) a b
  = if (sortByProperty property a b =? 0)%Z then sortByProperties props a b
    else sortByProperty property a b.
Proof. done. Qed.

Lemma sortByProperties_antisym props a b :
  sortByProperties props b a = (- sortByProperties props a b)%Z.
Proof.
  induction props as [|property props IH]; [done|].
  rewrite !sortByProperties_cons, (sortByProperty_antisym property a b), IH.
  destruct (Z.eqb_spec (sortByProperty property a b) 0) as [->|Hne]; [done|].
  destruct (Z.eqb_spec (- sortByProperty property a b) 0); [lia | done].
Qed.

Lemma sortByProperties_flip props x y :
  (0 < sortByProperties props x y)%Z → (sortByProperties props y x <= 0)%Z.
Proof. rewrite (sortByProperties_antisym props x y). lia. Qed.

Lemma sortByProperties_two x y a b :
  is_dash_prefixed x = false → is_dash_prefixed y = false →
  sortByProperties [x; y] a b
  = if (compare_property x a b =? 0)%Z then compare_property y a b
    else compare_property x a b.
Proof.
  intros Hx Hy. rewrite !sortByProperties_cons, !sortByProperty_ascending by done.
  change (sortByProperties [] a b) with 0%Z.
  by destruct (Z.eqb_spec (compare_property y a b) 0) as [->|].
Qed.

Lemma compare_property_numeric x a b na nb :
  get_prop a x = VNumber na → get_prop b x = VNumber nb →
  compare_property x a b
  = match SFcompare na nb with
    | Some Lt => (-1)%Z
    | Some Gt => 1%Z
    | _ => 0%Z
    end.
Proof.
  intros Ha Hb. unfold compare_property, js_gt, js_lt. rewrite Ha, Hb. simpl.
  unfold SFltb. rewrite (SFcompare_antisym na nb).
  by destruct (SFcompare na nb) as [[]|].
Qed.

(** On rows whose two columns hold numbers other than [NaN], the
    comparator of [orderBy(x, y)] is transitive. *)
Lemma numeric_columns_transitive x y rows :
  is_dash_prefixed x = false → is_dash_prefixed y = false →
  numeric_column x rows → numeric_column y rows →
  ∀ a b c, a ∈ rows → b ∈ rows → c ∈ rows →
    (sortByProperties [x; y] a b <= 0)%Z →
    (sortByProperties [x; y] b c <= 0)%Z →
    (sortByProperties [x; y] a c <= 0)%Z.
Proof.
  intros Hx Hy Hnx Hny a b c Ha Hb Hc.
  destruct (Hnx a Ha) as (ax & Hax & ?), (Hnx b Hb) as (bx & Hbx & ?),
    (Hnx c Hc) as (cx & Hcx & ?).
  destruct (Hny a Ha) as (ay & Hay & ?), (Hny b Hb) as (by_ & Hby & ?),
    (Hny c Hc) as (cy & Hcy & ?).
  destruct (SFcompare_total ax bx) as [c1x H1x]; [done..|].
  destruct (SFcompare_total bx cx) as [c2x H2x]; [done..|].
  destruct (SFcompare_total ay by_) as [c1y H1y]; [done..|].
  destruct (SFcompare_total by_ cy) as [c2y H2y]; [done..|].
  rewrite !sortByProperties_two by done.
  rewrite (compare_property_numeric x a b ax bx), (compare_property_numeric x b c bx cx),
    (compare_property_numeric x a c ax cx), (compare_property_numeric y a b ay by_),
    (compare_property_numeric y b c by_ cy), (compare_property_numeric y a c ay cy)
    by done.
  rewrite H1x, H2x, H1y, H2y. intros Hle1 Hle2.
  destruct c1x; simpl in Hle1; try lia;
    destruct c2x; simpl in Hle2; try lia;
    rewrite (SFcompare_trans ax bx cx _ _ H1x H2x) by done; simpl; try lia.
  destruct c1y; try lia; destruct c2y; try lia;
    rewrite (SFcompare_trans ay by_ cy _ _ H1y H2y) by done; lia.
Qed.

End ComparatorProofs.

(** *** The sort of the host *)

(** A comparator that negates when its arguments are swapped and whose
    not-greater is transitive on the elements is consistent for them. *)
Lemma consistent_comparator_transitive {A} (comparefn : A → A → Z) (xs : list A) :
  (∀ a b, comparefn b a = (- comparefn a b)%Z) →
  (∀ a b c, a ∈ xs → b ∈ xs → c ∈ xs →
            (comparefn a b <= 0)%Z → (comparefn b c <= 0)%Z → (comparefn a c <= 0)%Z) →
  consistent_comparator comparefn xs = true.
Proof.
  intros Hflip Htrans. unfold consistent_comparator.
  apply forallb_forall. intros a Ha%list_elem_of_In.
  apply andb_true_iff. split.
  { apply Z.eqb_eq. specialize (Hflip a a). lia. }
  apply forallb_forall. intros b Hb%list_elem_of_In.
  apply andb_true_iff. split.
  { destruct (Z.eqb_spec (comparefn a b) 0) as [Hab|]; [|done].
    apply Z.eqb_eq. specialize (Hflip a b). lia. }
  apply forallb_forall. intros c Hc%list_elem_of_In.
  pose proof (Hflip a b) as Hba. pose proof (Hflip b c) as Hcb.
  pose proof (Hflip a c) as Hca.
  pose proof (Htrans a b c Ha Hb Hc) as Habc.
  pose proof (Htrans c b a Hc Hb Ha) as Hcba.
  pose proof (Htrans c a b Hc Ha Hb) as Hcab.
  pose proof (Htrans b c a Hb Hc Ha) as Hbca.
  pose proof (Htrans a c b Ha Hc Hb) as Hacb.
  pose proof (Htrans b a c Hb Ha Hc) as Hbac.
  rewrite !andb_true_iff. repeat split.
  - destruct (Z.eqb_spec (comparefn a b) 0), (Z.eqb_spec (comparefn b c) 0); try done.
    apply Z.eqb_eq. lia.
  - destruct (Z.ltb_spec (comparefn a b) 0), (Z.ltb_spec (comparefn b c) 0); try done.
    apply Z.ltb_lt. lia.
  - destruct (Z.ltb_spec 0 (comparefn a b)), (Z.ltb_spec 0 (comparefn b c)); try done.
    apply Z.ltb_lt. lia.
Qed.

(** Transitivity on given elements can be found by evaluation. *)
Lemma transitive_by_evaluation {A} (comparefn : A → A → Z) (xs : list A) :
  forallb (λ a,
    forallb (λ b,
      forallb (λ c,
        implb ((comparefn a b <=? 0)%Z && (comparefn b c <=? 0)%Z)
              (comparefn a c <=? 0)%Z) xs) xs) xs = true →
  ∀ a b c, a ∈ xs → b ∈ xs → c ∈ xs →
    (comparefn a b <= 0)%Z → (comparefn b c <= 0)%Z → (comparefn a c <= 0)%Z.
Proof.
  rewrite forallb_forall. intros Hall a b c Ha%list_elem_of_In Hb%list_elem_of_In
    Hc%list_elem_of_In Hab Hbc.
  specialize (Hall a Ha). rewrite forallb_forall in Hall.
  specialize (Hall b Hb). rewrite forallb_forall in Hall.
  specialize (Hall c Hc).
  rewrite (proj2 (Z.leb_le _ _) Hab), (proj2 (Z.leb_le _ _) Hbc) in Hall.
  by apply Z.leb_le.
Qed.

Section HostSort.
Context `{Host}.

Lemma js_sort_consistent comparefn xs :
  consistent_comparator comparefn xs = true →
  js_sort comparefn xs = stable_sort comparefn xs.
Proof. unfold js_sort. by intros ->. Qed.

Lemma js_index_seq (xs : list value) : js_index xs <$> seq 0 (length xs) = xs.
Proof.
  apply list_eq. intros i. rewrite list_lookup_fmap.
  destruct (decide (i < length xs)) as [Hi|Hi].
  - rewrite lookup_seq_lt by done. cbn. unfold js_index.
    destruct (lookup_lt_is_Some_2 xs i Hi) as [x Hx]. by rewrite Hx.
  - rewrite lookup_seq_ge by lia. cbn. symmetry. apply lookup_ge_None. lia.
Qed.

(** Whatever the comparator, [sort] returns the elements it was given. *)
Lemma js_sort_Permutation comparefn xs : js_sort comparefn xs ≡ₚ xs.
Proof.
  unfold js_sort. destruct (consistent_comparator comparefn xs).
  - apply stable_sort_Permutation.
  - case_bool_decide as Horder; [|done].
    rewrite Horder. by rewrite js_index_seq.
Qed.

Lemma js_sort_transitive comparefn xs :
  (∀ a b, comparefn b a = (- comparefn a b)%Z) →
  (∀ a b c, a ∈ xs → b ∈ xs → c ∈ xs →
            (comparefn a b <= 0)%Z → (comparefn b c <= 0)%Z → (comparefn a c <= 0)%Z) →
  js_sort comparefn xs = stable_sort comparefn xs.
Proof.
  intros Hflip Htrans. by apply js_sort_consistent, consistent_comparator_transitive.
Qed.

(** [orderBy] with a comparator that is transitive on the rows. *)
Lemma orderBy_transitive this columns :
  (∀ a b c, a ∈ rows this → b ∈ rows this → c ∈ rows this →
            (sortByProperties columns a b <= 0)%Z →
            (sortByProperties columns b c <= 0)%Z →
            (sortByProperties columns a c <= 0)%Z) →
  Query.orderBy columns this
  = (set_rows (stable_sort (sortByProperties columns) (rows this)) this, Normal ()).
Proof.
  intros Htrans. unfold Query.orderBy, get, put, mbind, M_bind.
  rewrite js_sort_transitive; [done | | done].
  intros a b. apply sortByProperties_antisym.
Qed.

Lemma orderBy_rows_Permutation this columns :
  rows (Query.orderBy columns this).1 ≡ₚ rows this.
Proof. apply js_sort_Permutation. Qed.

End HostSort.

(** Consecutive order is order between any two elements when the
    relation is transitive on the elements of the list. *)
Lemma Sorted_StronglySorted_on {A} (R : A → A → Prop) (l : list A) :
  (∀ a b c, a ∈ l → b ∈ l → c ∈ l → R a b → R b c → R a c) →
  Sorted R l → StronglySorted R l.
Proof.
  intros Htrans Hsorted. induction Hsorted as [|a l Hl IH Hhd]; constructor.
  - apply IH. intros x y z Hx Hy Hz. apply Htrans; by right.
  - assert (Hstrong : StronglySorted R l).
    { apply IH. intros x y z Hx Hy Hz. apply Htrans; by right. }
    destruct Hhd as [|b l Hab]; constructor; [done|].
    apply StronglySorted_inv in Hstrong as [_ Hall].
    rewrite Forall_forall in *. intros c Hc.
    apply (Htrans a b c); [by left | by right; left | by right; right | done |].
    by apply Hall.
Qed.

(** *** The claims on ordering and on the lifetime of a query *)

Section PipelineClaims.
Context `{Host}.

(** When the comparator of the columns is transitive on the rows, the
    result of [orderBy] is ordered between any two rows. *)
Lemma orderBy_StronglySorted this columns :
  (∀ a b c, a ∈ rows this → b ∈ rows this → c ∈ rows this →
            (sortByProperties columns a b <= 0)%Z →
            (sortByProperties columns b c <= 0)%Z →
            (sortByProperties columns a c <= 0)%Z) →
  StronglySorted (λ a b, (sortByProperties columns a b <= 0)%Z)
                 (rows (Query.orderBy columns this).1).
Proof.
  intros Htrans. rewrite orderBy_transitive by done. cbn [fst rows set_rows].
  apply Sorted_StronglySorted_on.
  - intros a b c Ha Hb Hc.
    rewrite stable_sort_Permutation in Ha, Hb, Hc. by apply Htrans.
  - apply stable_sort_Sorted, sortByProperties_flip.
Qed.

(** Two rows that the comparator does not put in the other order keep
    their order. *)
Lemma orderBy_stable this columns a b :
  (∀ a b c, a ∈ rows this → b ∈ rows this → c ∈ rows this →
            (sortByProperties columns a b <= 0)%Z →
            (sortByProperties columns b c <= 0)%Z →
            (sortByProperties columns a c <= 0)%Z) →
  [a; b] `sublist_of` rows this →
  (sortByProperties columns a b <= 0)%Z →
  [a; b] `sublist_of` rows (Query.orderBy columns this).1.
Proof.
  intros Htrans Hsub Hab. rewrite orderBy_transitive by done. cbn [fst rows set_rows].
  by apply stable_sort_stable.
Qed.

(** On numeric columns the result of [orderBy(x, y)] is ordered between
    any two rows. *)
Lemma orderBy_numeric_StronglySorted this x y :
  is_dash_prefixed x = false → is_dash_prefixed y = false →
  numeric_column x (rows this) → numeric_column y (rows this) →
  StronglySorted (λ a b, (sortByProperties [x; y] a b <= 0)%Z)
                 (rows (Query.orderBy [x; y] this).1).
Proof.
  intros Hx Hy Hnx Hny.
  by apply orderBy_StronglySorted, numeric_columns_transitive.
Qed.

Lemma StronglySorted_weaken {A} (R R' : A → A → Prop) l :
  (∀ a b, R a b → R' a b) → StronglySorted R l → StronglySorted R' l.
Proof.
  intros HR. induction 1 as [|a l Hl IH Hall]; constructor; [done|].
  eapply Forall_impl; [exact Hall | auto].
Qed.

(** C4, as amended. On rows on which the comparison by [x], then by [y],
    is transitive, [orderBy('x','y')] stably reorders the rows and
    changes nothing else: the result is a permutation of the rows in
    which every row is not greater, than any row after it, in [x] under
    the comparator ([a<b] gives -1, [a>b] gives 1, else 0) and, when
    equal in [x], in [y]; two rows that compare equal on both columns
    keep their relative order; and a ["-"] prefix multiplies the
    comparison of that column alone by -1. *)
Theorem orderBy_stable_lexicographic (this : Query) (x y : string) :
  is_dash_prefixed x = false →
  is_dash_prefixed y = false →
  (∀ a b c, a ∈ rows this → b ∈ rows this → c ∈ rows this →
            (sortByProperties [x; y] a b <= 0)%Z →
            (sortByProperties [x; y] b c <= 0)%Z →
            (sortByProperties [x; y] a c <= 0)%Z) →
  let after := (Query.orderBy [x; y] this).1 in
  let in_order a b :=
    (compare_property x a b <= 0)%Z
    ∧ (compare_property x a b = 0%Z → (compare_property y a b <= 0)%Z) in
  (Query.orderBy [x; y] this).2 = Normal ()
  ∧ (columns after = columns this ∧ startAt after = startAt this
     ∧ limitValue after = limitValue this
     ∧ ignoreNullValues after = ignoreNullValues this)
  ∧ rows after ≡ₚ rows this
  ∧ StronglySorted in_order (rows after)
  ∧ (∀ a b, [a; b] `sublist_of` rows this →
            compare_property x a b = 0%Z → compare_property y a b = 0%Z →
            [a; b] `sublist_of` rows after)
  ∧ (∀ a b, compare_property x a b
            = if js_lt (field a x) (field b x) then (-1)%Z
              else if js_lt (field b x) (field a x) then 1%Z else 0%Z)
  ∧ (∀ a b, sortByProperties [String "-" x; y] a b
            = if (compare_property x a b =? 0)%Z then compare_property y a b
              else (- compare_property x a b)%Z)
  ∧ (∀ a b, sortByProperties [x; String "-" y] a b
            = if (compare_property x a b =? 0)%Z then (- compare_property y a b)%Z
              else compare_property x a b).
Proof.
  intros Hx Hy Htrans after in_order.
  assert (Hle : ∀ a b, (sortByProperties [x; y] a b <= 0)%Z ↔ in_order a b).
  { intros a b. unfold in_order. rewrite sortByProperties_two by done.
    destruct (Z.eqb_spec (compare_property x a b) 0); lia. }
  split; [done|]. split; [done|].
  split; [apply orderBy_rows_Permutation|].
  split.
  { eapply StronglySorted_weaken; [|by apply orderBy_StronglySorted].
    intros a b. apply Hle. }
  split.
  { intros a b Hsub Hx0 Hy0. apply orderBy_stable; [done..|].
    apply Hle. unfold in_order. lia. }
  split.
  { intros a b. unfold compare_property, js_gt. by rewrite !get_prop_field. }
  split.
  - intros a b. rewrite !sortByProperties_cons, sortByProperty_descending,
      sortByProperty_ascending by done.
    change (sortByProperties [] a b) with 0%Z.
    destruct (Z.eq_dec (compare_property x a b) 0%Z) as [Hx0|Hne].
    + rewrite Hx0. change (- 0 =? 0)%Z with true. cbv iota.
      by destruct (Z.eqb_spec (compare_property y a b) 0) as [->|].
    + rewrite (proj2 (Z.eqb_neq _ _) Hne).
      by rewrite (proj2 (Z.eqb_neq (- compare_property x a b) 0%Z)) by lia.
  - intros a b. rewrite !sortByProperties_cons, sortByProperty_descending,
      sortByProperty_ascending by done.
    change (sortByProperties [] a b) with 0%Z.
    destruct (compare_property x a b =? 0)%Z; [|done].
    destruct (Z.eqb_spec (- compare_property y a b) 0) as [Hy0|]; [|done]. lia.
Qed.

End PipelineClaims.

(** *** The validated setters *)

Section SetterProofs.
Context `{Host}.

Lemma skip_run n this :
  Query.skip n this
  = if negb (isNumber n) || js_lt n (VNumber (S754_zero false))
    then (this, Throw {| method := "skip"; param := 0; argument := n;
                         expected := "equal or greater than 0" |})
    else if negb (isSafeInteger n)
         then (this, Throw {| method := "skip"; param := 0; argument := n;
                              expected := "an integer" |})
         else (set_startAt n this, Normal ()).
Proof.
  unfold Query.skip, NumberValidation.validateNumbers, lift, mbind, M_bind.
  change (NumberValidation.getOwnMetadata NumberValidation.minMetadataKey
            Query.decorations "skip")
    with [{| NumberValidation.config_value := Some (S754_zero false);
             NumberValidation.config_index := 0 |}].
  change (NumberValidation.getOwnMetadata NumberValidation.maxMetadataKey
            Query.decorations "skip")
    with (@nil NumberValidation.ParameterConfig).
  change (NumberValidation.getOwnMetadata NumberValidation.integerMetadataKey
            Query.decorations "skip")
    with [{| NumberValidation.config_value := None;
             NumberValidation.config_index := 0 |}].
  cbn [NumberValidation.checkMinParams NumberValidation.checkMaxParams
       NumberValidation.checkIntegerParams NumberValidation.config_index
       NumberValidation.config_value NumberValidation.config_value_of
       NumberValidation.config_value_string from_option].
  change (js_index [n] 0) with n.
  destruct (negb (isNumber n) || js_lt n (VNumber (S754_zero false))); [done|].
  by destruct (negb (isSafeInteger n)).
Qed.

Lemma limit_run n this :
  Query.limit n this
  = if negb (isNumber n) || js_lt n (VNumber (S754_zero false))
    then (this, Throw {| method := "limit"; param := 0; argument := n;
                         expected := "equal or greater than 0" |})
    else if negb (isSafeInteger n)
         then (this, Throw {| method := "limit"; param := 0; argument := n;
                              expected := "an integer" |})
         else (set_limitValue n this, Normal ()).
Proof.
  unfold Query.limit, NumberValidation.validateNumbers, lift, mbind, M_bind.
  change (NumberValidation.getOwnMetadata NumberValidation.minMetadataKey
            Query.decorations "limit")
    with [{| NumberValidation.config_value := Some (S754_zero false);
             NumberValidation.config_index := 0 |}].
  change (NumberValidation.getOwnMetadata NumberValidation.maxMetadataKey
            Query.decorations "limit")
    with (@nil NumberValidation.ParameterConfig).
  change (NumberValidation.getOwnMetadata NumberValidation.integerMetadataKey
            Query.decorations "limit")
    with [{| NumberValidation.config_value := None;
             NumberValidation.config_index := 0 |}].
  cbn [NumberValidation.checkMinParams NumberValidation.checkMaxParams
       NumberValidation.checkIntegerParams NumberValidation.config_index
       NumberValidation.config_value NumberValidation.config_value_of
       NumberValidation.config_value_string from_option].
  change (js_index [n] 0) with n.
  destruct (negb (isNumber n) || js_lt n (VNumber (S754_zero false))); [done|].
  by destruct (negb (isSafeInteger n)).
Qed.

Lemma invalid_argument_checks n :
  invalid_argument n
  = (negb (isNumber n) || js_lt n (VNumber (S754_zero false)))
    || negb (isSafeInteger n).
Proof.
  unfold invalid_argument.
  destruct n; simpl; try done.
  by rewrite orb_comm.
Qed.

End SetterProofs.

Section SetterClaims.
Context `{Host}.

(** C5. [skip(-1)] throws the invalid-argument error that expects "equal
    or greater than 0" and [limit(1.5)] the one that expects "an
    integer"; the error is thrown before the body of the method runs, so
    the state of the query is what it was. For every argument [n],
    [skip(n)] and [limit(n)] throw exactly when [n] is not a safe integer
    or [n < 0], and otherwise set [startAt] (respectively [limitValue]) to
    [n] and nothing else. *)
Theorem skip_limit_validation :
  (∀ this,
     Query.skip (num (-1)) this
     = (this, Throw {| method := "skip"; param := 0; argument := num (-1);
                       expected := "equal or greater than 0" |}))
  ∧ (∀ this,
       Query.limit one_and_a_half this
       = (this, Throw {| method := "limit"; param := 0; argument := one_and_a_half;
                         expected := "an integer" |}))
  ∧ (∀ n this,
       invalid_argument n = true →
       (∃ e, Query.skip n this = (this, Throw e))
       ∧ (∃ e, Query.limit n this = (this, Throw e)))
  ∧ (∀ n this,
       invalid_argument n = false →
       (∃ after,
          Query.skip n this = (after, Normal ())
          ∧ startAt after = n
          ∧ rows after = rows this ∧ columns after = columns this
          ∧ limitValue after = limitValue this
          ∧ ignoreNullValues after = ignoreNullValues this)
       ∧ (∃ after,
            Query.limit n this = (after, Normal ())
            ∧ limitValue after = n
            ∧ rows after = rows this ∧ columns after = columns this
            ∧ startAt after = startAt this
            ∧ ignoreNullValues after = ignoreNullValues this)).
Proof.
  split; [|split; [|split]].
  - intros this. rewrite skip_run. done.
  - intros this. rewrite limit_run. done.
  - intros n this. rewrite invalid_argument_checks, skip_run, limit_run.
    destruct (negb (isNumber n) || js_lt n (VNumber (S754_zero false))).
    + intros _. split; eauto.
    + simpl. intros ->. split; eauto.
  - intros n this. rewrite invalid_argument_checks, skip_run, limit_run.
    destruct (negb (isNumber n) || js_lt n (VNumber (S754_zero false))); [done|].
    simpl. intros ->. split; eexists; (split; [done|]); done.
Qed.

End SetterClaims.

Section LifetimeClaims.
Context `{Host}.

Lemma filterRows_sublist condition this :
  rows (Query.filterRows condition this).1 `sublist_of` rows this.
Proof. apply sublist_filter. Qed.

Lemma filterWhere_sublist condition this :
  rows (Query.filterWhere condition this).1 `sublist_of` rows this.
Proof. apply sublist_filter. Qed.

Lemma skip_rows n this : rows (Query.skip n this).1 = rows this.
Proof.
  rewrite skip_run.
  destruct (negb (isNumber n) || js_lt n (VNumber (S754_zero false))); [done|].
  by destruct (negb (isSafeInteger n)).
Qed.

Lemma limit_rows n this : rows (Query.limit n this).1 = rows this.
Proof.
  rewrite limit_run.
  destruct (negb (isNumber n) || js_lt n (VNumber (S754_zero false))); [done|].
  by destruct (negb (isSafeInteger n)).
Qed.

Lemma perform_length op this :
  (length (rows (perform op this).1) ≤ length (rows this))%nat.
Proof.
  destruct op as [columns|condition|condition|columns|n|n]; cbn [perform].
  - done.
  - apply sublist_length, filterRows_sublist.
  - apply sublist_length, filterWhere_sublist.
  - by rewrite orderBy_rows_Permutation.
  - by rewrite skip_rows.
  - by rewrite limit_rows.
Qed.

Lemma perform_all_length ops this :
  (length (rows (perform_all ops this)) ≤ length (rows this))%nat.
Proof.
  revert this. induction ops as [|op ops IH]; intros this; simpl; [done|].
  etrans; [apply IH | apply perform_length].
Qed.

(** C9. At every point of the lifetime of a query, after [from] and after
    any sequence of [where], [filterWhere], [orderBy], [select], [skip]
    and [limit] calls, the rows are at most as many as the input: [from]
    copies the input, the filters only remove rows, [orderBy] only
    permutes them, and [select], [skip] and [limit] leave them. *)
Theorem rows_never_grow (input : list value) (ops : list operation) :
  (length (rows (perform_all ops (Query.from input))) ≤ length input)%nat
  ∧ rows (Query.from input) = input
  ∧ (∀ this condition,
       rows (Query.where_ condition this).1 `sublist_of` rows this)
  ∧ (∀ this condition,
       rows (Query.filterWhere condition this).1 `sublist_of` rows this)
  ∧ (∀ this columns, rows (Query.orderBy columns this).1 ≡ₚ rows this)
  ∧ (∀ this columns, rows (Query.select columns this).1 = rows this)
  ∧ (∀ this n, rows (Query.skip n this).1 = rows this)
  ∧ (∀ this n, rows (Query.limit n this).1 = rows this).
Proof.
  split; [apply (perform_all_length ops (Query.from input))|].
  split; [done|].
  split; [intros; apply filterRows_sublist|].
  split; [intros; apply filterWhere_sublist|].
  split; [intros; apply orderBy_rows_Permutation|].
  split; [done|].
  split; [intros; apply skip_rows | intros; apply limit_rows].
Qed.

End LifetimeClaims.

(** *** The invariant of the state *)

Lemma integer_value_sign n z :
  integer_value n = Some z → SFltb n (S754_zero false) = false → (0 <= z)%Z.
Proof.
  destruct n as [s| | |s m e]; simpl; try done.
  - intros [= <-]. done.
  - destruct s; [done|]. intros Hz _.
    destruct (Z.leb_spec 0 e).
    + injection Hz as <-. simpl. apply Z.mul_nonneg_nonneg; [done|].
      by apply Z.pow_nonneg.
    + destruct (Z.pos m mod 2 ^ (- e) =? 0)%Z; [|done].
      injection Hz as <-. simpl. apply Z.div_pos; [done|].
      apply Z.pow_pos_nonneg; lia.
Qed.

Section InvariantProofs.
Context `{Host}.

Lemma valid_argument_natural n :
  invalid_argument n = false → ∃ s : nat, number_is n (Z.of_nat s).
Proof.
  unfold invalid_argument. intros [Hsafe Hlt]%orb_false_elim.
  apply negb_false_iff in Hsafe.
  destruct n as [| | |x| | | |]; try done. simpl in Hsafe, Hlt.
  destruct (integer_value x) as [z|] eqn:Hz; [|done].
  exists (Z.to_nat z). simpl. rewrite Hz. f_equal.
  pose proof (integer_value_sign x z Hz Hlt). lia.
Qed.

Lemma from_invariant input : state_invariant (Query.from input).
Proof.
  split; [done|]. split; [by exists 0|]. by exists None.
Qed.

Lemma skip_invariant n this :
  state_invariant this → state_invariant (Query.skip n this).1.
Proof.
  intros Hinv. rewrite skip_run.
  destruct (negb (isNumber n) || js_lt n (VNumber (S754_zero false))) eqn:Hmin;
    [done|].
  destruct (negb (isSafeInteger n)) eqn:Hint; [done|].
  destruct Hinv as (Hmode & _ & Hl). split; [done|]. split; [|done]. simpl.
  apply valid_argument_natural. by rewrite invalid_argument_checks, Hmin, Hint.
Qed.

Lemma limit_invariant n this :
  state_invariant this → state_invariant (Query.limit n this).1.
Proof.
  intros Hinv. rewrite limit_run.
  destruct (negb (isNumber n) || js_lt n (VNumber (S754_zero false))) eqn:Hmin;
    [done|].
  destruct (negb (isSafeInteger n)) eqn:Hint; [done|].
  destruct Hinv as (Hmode & Hs & _). split; [done|]. split; [done|].
  destruct (valid_argument_natural n) as [l Hl].
  { by rewrite invalid_argument_checks, Hmin, Hint. }
  by exists (Some l).
Qed.

Lemma perform_invariant op this :
  state_invariant this → state_invariant (perform op this).1.
Proof.
  destruct op as [columns|condition|condition|columns|n|n]; simpl;
    auto using skip_invariant, limit_invariant.
  intros (Hmode & Hs & Hl). by split.
Qed.

(** The invariant holds at every point of the lifetime of a query. *)
Lemma perform_all_invariant ops input :
  state_invariant (perform_all ops (Query.from input)).
Proof.
  generalize (from_invariant input). generalize (Query.from input).
  induction ops as [|op ops IH]; intros this Hinv; simpl; [done|].
  by apply IH, perform_invariant.
Qed.

End InvariantProofs.

(** *** The claims at concrete inputs *)

(** C6, as stated, fails on the row [{a: null}]: there is a windowed row
    and it has a first field, whose value is [null], and [scalar()]
    returns [false]. *)
Lemma scalar_null_field_counterexample :
  Query.all null_field_query = (null_field_query, Normal [null_field_row])
  ∧ scalar_specified null_field_query [null_field_row] = VNull
  ∧ Query.scalar null_field_query = (null_field_query, Normal (VBoolean false))
  ∧ Query.scalar null_field_query
    ≠ (null_field_query, Normal (scalar_specified null_field_query [null_field_row])).
Proof. repeat split; try reflexivity. discriminate. Qed.

(** The window of the sample query, which skips one row and takes one. *)
Lemma window_of_all_count_exists_witness :
  number_is (startAt sample_query) (Z.of_nat 1)
  ∧ limit_is (limitValue sample_query) (Some 1)
  ∧ Query.all sample_query = (sample_query, Normal [sample_row 2 "2" 3])
  ∧ Query.count sample_query = (sample_query, Normal 1).
Proof.
  split; [reflexivity|]. split; [reflexivity|].
  pose proof (window_of_all_count_exists sample_query 1 (Some 1)
                ltac:(reflexivity) ltac:(reflexivity)) as (Hall & _ & Hcount & _).
  split; [exact Hall | exact Hcount].
Defined.



(** The two filters with a null condition on rows whose field [p] is
    null, 1, undefined and absent. *)
Lemma filterWhere_null_identity_where_null_literal_witness :
  ignoreNullValues (Query.from nullable_rows) = false
  ∧ Query.filterWhere [("p", VNull)] (Query.from nullable_rows)
    = (Query.from nullable_rows, Normal ())
  ∧ rows (Query.where_ (Conditions [("p", VNull)]) (Query.from nullable_rows)).1
    = [VObject 1 [("id", num 1); ("p", VNull)]].
Proof.
  split; [reflexivity|].
  destruct (filterWhere_null_identity_where_null_literal (Query.from nullable_rows) "p"
              eq_refl) as (Hfilter & after & Hwhere & Hrows & _).
  split; [exact Hfilter|]. rewrite Hwhere. exact Hrows.
Defined.



(** An undefined condition on rows whose field [p] is null, 1, undefined
    and absent. *)
Lemma where_undefined_condition_witness :
  ignoreNullValues (Query.from nullable_rows) = false
  ∧ rows (Query.where_ (Conditions [("p", VUndefined)]) (Query.from nullable_rows)).1
    = [VObject 3 [("id", num 3); ("p", VUndefined)]; VObject 4 [("id", num 4)]].
Proof.
  split; [reflexivity|].
  destruct (where_undefined_condition (Query.from nullable_rows) "p" eq_refl)
    as (_ & _ & _ & after & Hwhere & Hrows & _).
  rewrite Hwhere. exact Hrows.
Defined.

(** [skip(2)] and [limit(2)] on the sample rows. *)
Lemma skip_limit_validation_witness :
  invalid_argument (num 2) = false
  ∧ startAt (Query.skip (num 2) (Query.from sample_rows)).1 = num 2
  ∧ limitValue (Query.limit (num 2) (Query.from sample_rows)).1 = num 2.
Proof.
  split; [reflexivity|].
  destruct (proj2 (proj2 (proj2 skip_limit_validation)) (num 2)
              (Query.from sample_rows) eq_refl)
    as [(after & Hskip & Hstart & _) (after' & Hlimit & Hlim & _)].
  rewrite Hskip, Hlimit. by split.
Defined.

(** C4, as stated, fails on the rows
    [{id:0,x:3,y:0}, {id:1,x:1,y:0}, {id:2,y:0}, {id:3,x:2,y:0}], on
    which the comparator is not consistent: the row without [x] and the
    row after it compare equal on both columns, and [orderBy('x','y')]
    leaves them in the other order (the rows come out as 1, 3, 0, 2). *)
Lemma orderBy_missing_field_counterexample :
  let sorted := rows (Query.orderBy ["x"; "y"] (Query.from gap_rows)).1 in
  sorted = [gap_row 2 1 (Some 1%Z); gap_row 4 3 (Some 2%Z); gap_row 1 0 (Some 3%Z);
            gap_row 3 2 None]
  ∧ [gap_row 3 2 None; gap_row 4 3 (Some 2%Z)] `sublist_of` gap_rows
  ∧ compare_property "x" (gap_row 3 2 None) (gap_row 4 3 (Some 2%Z)) = 0%Z
  ∧ compare_property "y" (gap_row 3 2 None) (gap_row 4 3 (Some 2%Z)) = 0%Z
  ∧ ¬ [gap_row 3 2 None; gap_row 4 3 (Some 2%Z)] `sublist_of` sorted.
Proof.
  intros sorted.
  assert (Hsorted : sorted
                    = [gap_row 2 1 (Some 1%Z); gap_row 4 3 (Some 2%Z);
                       gap_row 1 0 (Some 3%Z); gap_row 3 2 None])
    by (vm_compute; reflexivity).
  split; [exact Hsorted|].
  split; [do 2 apply sublist_cons; apply sublist_skip, sublist_skip, sublist_nil|].
  split; [reflexivity|]. split; [reflexivity|].
  rewrite Hsorted. unfold gap_row. intros Hsub.
  repeat match goal with
         | Hs : _ :: _ `sublist_of` [] |- _ => by apply sublist_nil_r in Hs
         | Hs : _ :: _ `sublist_of` _ :: _ |- _ =>
             apply sublist_cons_r in Hs as [Hs|(tail & Heq & Hs)];
             [|simplify_eq]
         end.
Qed.

(** The scalar of the sample query. *)
Lemma scalar_first_value_or_false_witness :
  Query.all sample_query = (sample_query, Normal [sample_row 2 "2" 3])
  ∧ (∀ row, head [sample_row 2 "2" 3] = Some row →
            isObject row = true ∧ first_column_of sample_query row ≠ Some "")
  ∧ Query.scalar sample_query = (sample_query, Normal (VString "2")).
Proof.
  assert (Hrow : ∀ row, head [sample_row 2 "2" 3] = Some row →
                        isObject row = true ∧ first_column_of sample_query row ≠ Some "").
  { intros row [= <-]. split; [reflexivity | discriminate]. }
  split; [reflexivity|]. split; [exact Hrow|].
  apply (scalar_first_value_or_false sample_query [sample_row 2 "2" 3]
           ltac:(reflexivity) Hrow).
Defined.

(** *** The scenarios of the specification and of the test suite *)

Example scenario_where_orderBy_select_column :
  (then_ (Query.where_ (Conditions [("p", VFunction 0)]))
     (then_ (Query.orderBy ["-p"])
        (then_ (Query.select (OneColumn "id")) Query.column))
     (Query.from sample_rows)).2
  = Normal [VString "2"; VString "1"; VString "3"].
Proof. reflexivity. Qed.

Example scenario_recursive_match :
  QueryRowValidator.validate nested_row
    [("foo", VObject 9 [("bar", VString "b")])] false = true
  ∧ QueryRowValidator.validate nested_row
      [("foo", VObject 9 [("bar", VString "b");
                          ("foo", VObject 8 [("bar", VString "d")])])] false = false.
Proof. split; reflexivity. Qed.

Example scenario_orderBy_two_fields :
  (then_ (Query.orderBy ["x"; "y"]) Query.values (Query.from coords)).2
  = Normal [[num 1; num 1]; [num 1; num 2]; [num 1; num 3]; [num 1; num 4];
            [num 2; num 1]; [num 2; num 2]; [num 2; num 3]; [num 2; num 4]]
  ∧ (then_ (Query.orderBy ["x"; "-y"])
       (then_ (Query.select (OneColumn "y")) Query.column) (Query.from coords)).2
    = Normal [num 4; num 3; num 2; num 1; num 4; num 3; num 2; num 1].
Proof. split; reflexivity. Qed.

Example scenario_skip_and_limit :
  (then_ (Query.select (OneColumn "id"))
     (then_ (Query.skip (num 1)) (then_ (Query.limit (num 1)) Query.scalar))
     (Query.from sample_rows)).2
  = Normal (VString "2")
  ∧ (then_ (Query.skip (num 3)) Query.count (Query.from sample_rows)).2 = Normal 0
  ∧ (then_ (Query.skip (num 3)) Query.last (Query.from sample_rows)).2 = Normal VNull.
Proof. repeat split; reflexivity. Qed.

Example scenario_numeric_columns :
  numeric_column "x" coords ∧ numeric_column "y" coords.
Proof.
  split; intros r Hr; repeat (apply elem_of_cons in Hr as [->|Hr]);
    try (by eexists; split; [reflexivity | discriminate]);
    by apply elem_of_nil in Hr.
Qed.

(** C4 on the coordinates, whose two columns hold numbers. *)
Lemma orderBy_stable_lexicographic_witness :
  is_dash_prefixed "x" = false
  ∧ is_dash_prefixed "y" = false
  ∧ (∀ a b c, a ∈ rows (Query.from coords) → b ∈ rows (Query.from coords) →
              c ∈ rows (Query.from coords) →
              (sortByProperties ["x"; "y"] a b <= 0)%Z →
              (sortByProperties ["x"; "y"] b c <= 0)%Z →
              (sortByProperties ["x"; "y"] a c <= 0)%Z)
  ∧ rows (Query.orderBy ["x"; "y"] (Query.from coords)).1 ≡ₚ coords
  ∧ StronglySorted
      (λ a b, (compare_property "x" a b <= 0)%Z
              ∧ (compare_property "x" a b = 0%Z → (compare_property "y" a b <= 0)%Z))
      [coord 4 1 1; coord 6 1 2; coord 5 1 3; coord 2 1 4;
       coord 8 2 1; coord 1 2 2; coord 3 2 3; coord 7 2 4].
Proof.
  assert (Htrans : ∀ a b c, a ∈ rows (Query.from coords) → b ∈ rows (Query.from coords) →
            c ∈ rows (Query.from coords) →
            (sortByProperties ["x"; "y"] a b <= 0)%Z →
            (sortByProperties ["x"; "y"] b c <= 0)%Z →
            (sortByProperties ["x"; "y"] a c <= 0)%Z).
  { apply numeric_columns_transitive; try reflexivity; apply scenario_numeric_columns. }
  split; [reflexivity|]. split; [reflexivity|]. split; [exact Htrans|].
  destruct (orderBy_stable_lexicographic (Query.from coords) "x" "y" eq_refl eq_refl Htrans)
    as (_ & _ & Hperm & Hsorted & _).
  split; [exact Hperm | exact Hsorted].
Defined.

Example scenario_coords_ordered :
  StronglySorted (λ a b, (sortByProperties ["x"; "y"] a b <= 0)%Z)
                 (rows (Query.orderBy ["x"; "y"] (Query.from coords)).1).
Proof.
  apply orderBy_numeric_StronglySorted; try reflexivity;
    apply scenario_numeric_columns.
Qed.

Example scenario_string_order :
  js_lt (VString "Z") (VString "a") = true
  ∧ js_lt (VString "a") (VString "ab") = true
  ∧ js_lt (VString "2024-01-31") (VString "2024-02-01") = true
  ∧ js_lt (VString "😀") (VString "～") = true
  ∧ js_lt (VString "～") (VString "😀") = false.
Proof. repeat split; reflexivity. Qed.

Example scenario_sparse_arrays :
  compareArrays [None; Some (num 2)] (dense [num 1; num 2]) = true
  ∧ compareArrays (dense [num 1; num 2]) [None; Some (num 2)] = false
  ∧ compareArrays (dense [VUndefined; num 2]) [None; Some (num 2)] = true
  ∧ object_keys (VArray 1 [None; Some (num 2)]) = ["1"]
  ∧ get_prop (VArray 1 [None; Some (num 2)]) "length" = num 2.
Proof. repeat split; reflexivity. Qed.

Example scenario_property_order :
  (set_prop "1" (num 9) [("a", num 1); ("b", num 2)]).*1 = ["1"; "a"; "b"]
  ∧ (set_prop "c" (num 9) [("a", num 1); ("b", num 2)]).*1 = ["a"; "b"; "c"]
  ∧ (set_prop "01" (num 9) [("a", num 1); ("b", num 2)]).*1 = ["a"; "b"; "01"]
  ∧ (set_prop "1" (num 9) [("0", num 1); ("2", num 2); ("a", num 3)]).*1
    = ["0"; "1"; "2"; "a"]
  ∧ (set_prop "a" (num 9) [("a", num 1); ("b", num 2)]) = [("a", num 9); ("b", num 2)].
Proof. repeat split; reflexivity. Qed.

Example scenario_sort_of_the_host :
  short_array_sort Z.sub [5; 3; 1; 4; 2; 2; 9; 0]%Z = [0; 1; 2; 2; 3; 4; 5; 9]%Z
  ∧ consistent_comparator (sortByProperties ["x"; "y"]) coords = true
  ∧ consistent_comparator (sortByProperties ["x"; "y"]) gap_rows = false.
Proof. repeat split; vm_compute; reflexivity. Qed.

Example scenario_scalar_zero_and_null :
  (Query.scalar (Query.from [VObject 1 [("a", num 0)]])).2 = Normal (num 0)
  ∧ (Query.scalar (Query.from [VObject 1 [("a", VString "")]])).2 = Normal (VString "")
  ∧ (Query.scalar (Query.from [VObject 1 [("a", VUndefined)]])).2 = Normal (VBoolean false)
  ∧ (then_ (Query.select (OneColumn "b")) Query.scalar
       (Query.from [VObject 1 [("a", num 0)]])).2 = Normal (VBoolean false).
Proof. repeat split; reflexivity. Qed.

(** ** Further properties of the code *)

(** *** The condition matcher: conjunction and the two modes *)

Section MatcherExtras.
Context `{Host}.
Import QueryRowValidator.

Lemma strip_condition_object r props :
  strip_condition (VObject r props) = VObject r (strip_nullish props).
Proof. done. Qed.

Lemma validate_cons row k c rest ignoreNulls :
  validate row ((k, c) :: rest) ignoreNulls
  = validateColumnCondition ignoreNulls row k c && validate row rest ignoreNulls.
Proof. done. Qed.

Lemma validate_app row (c1 c2 : conditions) ignoreNulls :
  validate row (c1 ++ c2) ignoreNulls
  = validate row c1 ignoreNulls && validate row c2 ignoreNulls.
Proof. unfold validate, validateConditions, getEntries. apply forallb_app. Qed.

Lemma validateColumnCondition_same_mode row k c :
  c ≠ VNull → c ≠ VUndefined → (∀ r props, c ≠ VObject r props) →
  validateColumnCondition true row k c = validateColumnCondition false row k c.
Proof. destruct c; simpl; try done. intros _ _ Hobj. by destruct (Hobj r props). Qed.

(** The tolerant mode on a condition is the plain mode on the condition
    without its null and undefined entries. *)
Lemma validateColumnCondition_strip c :
  ∀ row k,
    validateColumnCondition true row k c
    = match c with
      | VNull | VUndefined => true
      | _ => validateColumnCondition false row k (strip_condition c)
      end.
Proof.
  induction c as [| |b|n|s|f|r items _|r props IH] using value_nested_ind;
    intros row k; try done.
  rewrite strip_condition_object, !validateColumnCondition_object.
  destruct (isObject (get_prop row k)); [|done].
  generalize (get_prop row k). intros cell.
  induction props as [|[k' c'] props IHprops]; [done|].
  apply Forall_cons in IH as [Hc' IH]. simpl in Hc'.
  rewrite validate_cons, Hc', (IHprops IH).
  destruct c'; simpl strip_nullish; by rewrite ?validate_cons.
Qed.

Lemma validate_strip row (c : conditions) :
  validate row c true = validate row (strip_nullish c) false.
Proof.
  induction c as [|[k c'] c IH]; [done|].
  rewrite validate_cons, validateColumnCondition_strip, IH.
  destruct c'; simpl strip_nullish; by rewrite ?validate_cons.
Qed.

(** What the plain mode accepts, the tolerant mode accepts. *)
Lemma validateColumnCondition_tolerant c :
  ∀ row k,
    validateColumnCondition false row k c = true →
    validateColumnCondition true row k c = true.
Proof.
  induction c as [| |b|n|s|f|r items _|r props IH] using value_nested_ind;
    intros row k; try done.
  rewrite !validateColumnCondition_object.
  destruct (isObject (get_prop row k)); [|done].
  rewrite !validate_forall. rewrite Forall_forall in IH.
  intros Hall k' c' Hin. apply (IH (k', c')); [by apply Hin | by apply Hall].
Qed.

Lemma validate_tolerant row (c : conditions) :
  validate row c false = true → validate row c true = true.
Proof.
  rewrite !validate_forall. intros Hall k c' Hin.
  by apply validateColumnCondition_tolerant, Hall.
Qed.

End MatcherExtras.

Section FilterExtras.
Context `{Host}.

Lemma filter_filter_comm {A} (P Q : A → Prop) `{∀ x, Decision (P x)}
    `{∀ x, Decision (Q x)} (l : list A) :
  filter P (filter Q l) = filter Q (filter P l).
Proof.
  rewrite !list_filter_filter. apply list_filter_iff. intros x. tauto.
Qed.

Lemma filter_sublist_impl {A} (P Q : A → Prop) `{∀ x, Decision (P x)}
    `{∀ x, Decision (Q x)} (l : list A) :
  (∀ x, P x → Q x) → filter P l `sublist_of` filter Q l.
Proof.
  intros HPQ. rewrite <- (list_filter_filter_l P Q l HPQ). apply sublist_filter.
Qed.

(** X1. Two [where] calls with conditions objects keep the rows that one
    [where] keeps with the entries of both objects: the conditions of
    successive calls are joined by "and". *)
Theorem where_where_conjunction (this : Query) (c1 c2 : conditions) :
  then_ (Query.where_ (Conditions c1)) (Query.where_ (Conditions c2)) this
  = Query.where_ (Conditions (c1 ++ c2)) this.
Proof.
  unfold then_, Query.where_, mbind, M_bind. rewrite !filterRows_conditions.
  simpl. unfold set_rows. simpl. do 2 f_equal.
  rewrite list_filter_filter. apply list_filter_iff. intros row.
  rewrite validate_app, andb_true_iff. tauto.
Qed.

(** X2. Two [where] calls commute, whether their arguments are callbacks
    or conditions objects. *)
Theorem where_where_commute (this : Query) (a b : where_condition) :
  then_ (Query.where_ a) (Query.where_ b) this
  = then_ (Query.where_ b) (Query.where_ a) this.
Proof.
  unfold then_, Query.where_, Query.filterRows, mbind, M_bind, get, put.
  simpl. unfold set_rows. simpl. do 2 f_equal. apply filter_filter_comm.
Qed.

(** X3. [filterWhere(c)] is [where] of [c] without its null and undefined
    entries, those of its nested objects included. *)
Theorem filterWhere_is_where_stripped (this : Query) (c : conditions) :
  ignoreNullValues this = false →
  Query.filterWhere c this = Query.where_ (Conditions (strip_nullish c)) this.
Proof.
  intros Hmode.
  unfold Query.filterWhere, Query.where_, get, put, mbind, M_bind.
  rewrite !filterRows_conditions. simpl. rewrite Hmode.
  unfold set_rows, set_ignoreNullValues. simpl. rewrite Hmode. do 2 f_equal.
  apply list_filter_iff. intros row. by rewrite validate_strip.
Qed.

(** X4. [filterWhere(c)] keeps every row that [where(c)] keeps, in the
    same order. *)
Theorem where_within_filterWhere (this : Query) (c : conditions) :
  rows (Query.where_ (Conditions c) this).1
  `sublist_of` rows (Query.filterWhere c this).1.
Proof.
  unfold Query.filterWhere, Query.where_, get, put, mbind, M_bind.
  rewrite !filterRows_conditions. simpl.
  apply filter_sublist_impl. intros row.
  destruct (ignoreNullValues this); [done | apply validate_tolerant].
Qed.

End FilterExtras.

(** *** Ordering: rows in order, any columns, ordering and filtering *)

Section SortExtras.
Variable comparefn : value → value → Z.

Lemma stable_insert_first x sorted :
  HdRel (λ a b, (comparefn a b <= 0)%Z) x sorted →
  stable_insert comparefn x sorted = x :: sorted.
Proof.
  destruct 1 as [|y rest Hxy]; simpl; [done|].
  destruct (Z.ltb_spec 0 (comparefn x y)); [lia | done].
Qed.

(** Rows whose consecutive elements are in order are left as they are. *)
Lemma stable_sort_Sorted_id xs :
  Sorted (λ a b, (comparefn a b <= 0)%Z) xs → stable_sort comparefn xs = xs.
Proof.
  induction 1 as [|x xs Hxs IH Hhd]; simpl; [done|].
  rewrite IH. by apply stable_insert_first.
Qed.

Lemma stable_insert_filter (P : value → Prop) `{∀ x, Decision (P x)} x sorted :
  (∀ a b c, a ∈ x :: sorted → b ∈ x :: sorted → c ∈ x :: sorted →
            (comparefn a b <= 0)%Z → (comparefn b c <= 0)%Z → (comparefn a c <= 0)%Z) →
  StronglySorted (λ a b, (comparefn a b <= 0)%Z) sorted →
  filter P (stable_insert comparefn x sorted)
  = if decide (P x) then stable_insert comparefn x (filter P sorted)
    else filter P sorted.
Proof.
  intros Htrans Hsorted.
  induction Hsorted as [|y rest Hrest IH Hy]; simpl.
  - rewrite filter_cons, filter_nil. by case_decide.
  - assert (IH' : filter P (stable_insert comparefn x rest)
                  = if decide (P x) then stable_insert comparefn x (filter P rest)
                    else filter P rest).
    { apply IH. intros a b c Ha Hb Hc. apply Htrans.
      - apply elem_of_cons in Ha as [->|Ha]; [by left | by right; right].
      - apply elem_of_cons in Hb as [->|Hb]; [by left | by right; right].
      - apply elem_of_cons in Hc as [->|Hc]; [by left | by right; right]. }
    destruct (Z.ltb_spec 0 (comparefn x y)) as [Hgt|Hle].
    + rewrite !(filter_cons _ y). destruct (decide (P y)); rewrite IH'; [|done].
      destruct (decide (P x)); [|done]. simpl.
      by rewrite (proj2 (Z.ltb_lt _ _) Hgt).
    + rewrite (filter_cons _ x). destruct (decide (P x)); [|done].
      symmetry. apply stable_insert_first.
      assert (Hall : Forall (λ z, (comparefn x z <= 0)%Z) (y :: rest)).
      { constructor; [done|]. rewrite Forall_forall in *. intros z Hz.
        apply (Htrans x y z); [by left | by right; left | by right; right | done |].
        by apply Hy. }
      assert (Hfiltered : Forall (λ z, (comparefn x z <= 0)%Z) (filter P (y :: rest))).
      { rewrite Forall_forall in *. intros z [_ Hz]%list_elem_of_filter. by apply Hall. }
      destruct Hfiltered; by constructor.
Qed.

Hypothesis comparefn_flip : ∀ x y, (0 < comparefn x y)%Z → (comparefn y x <= 0)%Z.

(** Filtering the sorted rows is sorting the filtered rows, when the
    comparator is transitive on the rows. *)
Lemma stable_sort_filter (P : value → Prop) `{∀ x, Decision (P x)} xs :
  (∀ a b c, a ∈ xs → b ∈ xs → c ∈ xs →
            (comparefn a b <= 0)%Z → (comparefn b c <= 0)%Z → (comparefn a c <= 0)%Z) →
  filter P (stable_sort comparefn xs) = stable_sort comparefn (filter P xs).
Proof.
  induction xs as [|x xs IH]; intros Htrans; simpl; [done|].
  assert (Htail : ∀ a b c, a ∈ xs → b ∈ xs → c ∈ xs →
            (comparefn a b <= 0)%Z → (comparefn b c <= 0)%Z → (comparefn a c <= 0)%Z).
  { intros a b c Ha Hb Hc. apply Htrans; by right. }
  rewrite stable_insert_filter.
  - rewrite filter_cons. destruct (decide (P x)); simpl; by rewrite IH.
  - intros a b c Ha Hb Hc. rewrite stable_sort_Permutation in Ha, Hb, Hc. by apply Htrans.
  - apply Sorted_StronglySorted_on; [|by apply stable_sort_Sorted].
    intros a b c Ha Hb Hc. rewrite stable_sort_Permutation in Ha, Hb, Hc. by apply Htail.
Qed.

End SortExtras.

Section OrderExtras.
Context `{Host}.

Lemma set_rows_rows this : set_rows (rows this) this = this.
Proof. by destruct this. Qed.

Lemma sortByProperty_range property a b :
  sortByProperty property a b = (-1)%Z ∨ sortByProperty property a b = 0%Z
  ∨ sortByProperty property a b = 1%Z.
Proof.
  assert (Hrange : ∀ p, compare_property p a b = (-1)%Z ∨ compare_property p a b = 0%Z
                        ∨ compare_property p a b = 1%Z).
  { intros p. unfold compare_property.
    destruct (js_lt _ _); [auto|]. destruct (js_gt _ _); auto. }
  destruct (is_dash_prefixed property) eqn:Hdash.
  - destruct property as [|c rest]; [done|]. simpl in Hdash.
    apply Ascii.eqb_eq in Hdash as ->. rewrite sortByProperty_descending.
    destruct (Hrange rest) as [->| [->| ->]]; auto.
  - rewrite sortByProperty_ascending by done. apply Hrange.
Qed.

(** X5. When the comparator of the columns is transitive on the rows,
    ordering twice by the same columns is ordering once. *)
Theorem orderBy_idempotent (this : Query) (columns : list string) :
  (∀ a b c, a ∈ rows this → b ∈ rows this → c ∈ rows this →
            (sortByProperties columns a b <= 0)%Z →
            (sortByProperties columns b c <= 0)%Z →
            (sortByProperties columns a c <= 0)%Z) →
  then_ (Query.orderBy columns) (Query.orderBy columns) this
  = Query.orderBy columns this.
Proof.
  intros Htrans. unfold then_, mbind, M_bind.
  rewrite (orderBy_transitive this) by done.
  rewrite orderBy_transitive.
  - cbn [rows set_rows]. unfold set_rows. cbn. do 2 f_equal.
    apply stable_sort_Sorted_id, stable_sort_Sorted, sortByProperties_flip.
  - cbn [rows set_rows]. intros a b c Ha Hb Hc.
    rewrite stable_sort_Permutation in Ha, Hb, Hc. by apply Htrans.
Qed.

(** X6. Rows that are already in the order of the columns, the
    comparator being transitive on them, are left exactly as they are by
    [orderBy]. *)
Theorem orderBy_ordered_rows_unchanged (this : Query) (columns : list string) :
  (∀ a b c, a ∈ rows this → b ∈ rows this → c ∈ rows this →
            (sortByProperties columns a b <= 0)%Z →
            (sortByProperties columns b c <= 0)%Z →
            (sortByProperties columns a c <= 0)%Z) →
  Sorted (λ a b, (sortByProperties columns a b <= 0)%Z) (rows this) →
  Query.orderBy columns this = (this, Normal ()).
Proof.
  intros Htrans Hsorted. rewrite orderBy_transitive by done.
  rewrite stable_sort_Sorted_id by done. by rewrite set_rows_rows.
Qed.

(** X7. [orderBy()] without a column leaves the query as it is: the
    comparator of no property is 0 on every two rows. *)
Theorem orderBy_no_column (this : Query) :
  (∀ a b, sortByProperties [] a b = 0%Z)
  ∧ Query.orderBy [] this = (this, Normal ()).
Proof.
  split; [done|].
  rewrite orderBy_transitive by done.
  rewrite stable_sort_Sorted_id; [by rewrite set_rows_rows|].
  generalize (rows this). intros l.
  induction l as [|x l IH]; constructor; [done|]. by destruct l; constructor.
Qed.

(** X8. For any columns, with or without the ["-"] prefix, whose
    comparator is transitive on the rows, [orderBy] changes the rows
    only: they become a permutation in which no row is put by the
    comparator after a row that follows it, and two rows that the
    comparator does not put in the other order keep their relative
    order. *)
Theorem orderBy_any_columns (this : Query) (names : list string) :
  (∀ a b c, a ∈ rows this → b ∈ rows this → c ∈ rows this →
            (sortByProperties names a b <= 0)%Z →
            (sortByProperties names b c <= 0)%Z →
            (sortByProperties names a c <= 0)%Z) →
  let after := (Query.orderBy names this).1 in
  (Query.orderBy names this).2 = Normal ()
  ∧ (columns after = columns this ∧ startAt after = startAt this
     ∧ limitValue after = limitValue this
     ∧ ignoreNullValues after = ignoreNullValues this)
  ∧ rows after ≡ₚ rows this
  ∧ StronglySorted (λ a b, (sortByProperties names a b <= 0)%Z) (rows after)
  ∧ (∀ a b, [a; b] `sublist_of` rows this →
            (sortByProperties names a b <= 0)%Z →
            [a; b] `sublist_of` rows after).
Proof.
  intros Htrans after. split; [done|]. split; [done|].
  split; [apply orderBy_rows_Permutation|].
  split; [by apply orderBy_StronglySorted|].
  intros a b Hsub Hle. by apply orderBy_stable.
Qed.

(** X9. The comparator of several properties is the comparison of the
    first property on which the two rows differ, and 0 when there is
    none; it is -1, 0 or 1, and exchanging the rows negates it. *)
Theorem sortByProperties_first_difference (props : list string) (a b : value) :
  sortByProperties props a b
  = default 0%Z (head (filter (λ z, z ≠ 0%Z) ((λ p, sortByProperty p a b) <$> props)))
  ∧ (sortByProperties props a b = (-1)%Z ∨ sortByProperties props a b = 0%Z
     ∨ sortByProperties props a b = 1%Z)
  ∧ sortByProperties props b a = (- sortByProperties props a b)%Z.
Proof.
  split; [|split].
  - induction props as [|p props IH]; [done|].
    rewrite sortByProperties_cons, fmap_cons, filter_cons.
    destruct (Z.eqb_spec (sortByProperty p a b) 0) as [Hz|Hz].
    + by rewrite decide_False by auto.
    + by rewrite decide_True by auto.
  - induction props as [|p props IH]; [auto|].
    rewrite sortByProperties_cons.
    destruct (sortByProperty p a b =? 0)%Z; [done | apply sortByProperty_range].
  - apply sortByProperties_antisym.
Qed.

(** X10. When the comparator of the columns is transitive on the rows,
    [orderBy] and [where] can be exchanged. *)
Theorem orderBy_where_commute (this : Query) (columns : list string)
    (condition : where_condition) :
  (∀ a b c, a ∈ rows this → b ∈ rows this → c ∈ rows this →
            (sortByProperties columns a b <= 0)%Z →
            (sortByProperties columns b c <= 0)%Z →
            (sortByProperties columns a c <= 0)%Z) →
  then_ (Query.orderBy columns) (Query.where_ condition) this
  = then_ (Query.where_ condition) (Query.orderBy columns) this.
Proof.
  intros Htrans. unfold then_, mbind, M_bind.
  rewrite (orderBy_transitive this) by done.
  unfold Query.where_, Query.filterRows, get, put, mbind, M_bind.
  rewrite orderBy_transitive.
  - unfold set_rows. cbn. do 2 f_equal.
    apply stable_sort_filter; [apply sortByProperties_flip | done].
  - cbn [rows set_rows]. intros a b c [_ Ha]%list_elem_of_filter
      [_ Hb]%list_elem_of_filter [_ Hc]%list_elem_of_filter. by apply Htrans.
Qed.

End OrderExtras.

(** *** The results: first and last, empty windows, columns and values *)

Section ResultExtras.
Context `{Host}.

Lemma js_index_Z_last (xs : list value) :
  js_index_Z xs (Z.of_nat (length xs) - 1) = default VUndefined (last xs).
Proof.
  unfold js_index_Z, js_index. destruct xs as [|x xs]; [done|].
  destruct (Z.ltb_spec (Z.of_nat (length (x :: xs)) - 1) 0) as [Hneg|_];
    [simpl in Hneg; lia|].
  rewrite last_lookup. do 2 f_equal. simpl. lia.
Qed.

Lemma js_slice_run xs start end_ :
  ∃ k n, js_slice xs start end_ = take n (drop k xs).
Proof. unfold js_slice. eauto. Qed.

Lemma limited_run this :
  ∃ k n, limited this = take n (drop k (rows this)).
Proof.
  unfold limited.
  destruct (js_slice_run (rows this) (startAt this) VUndefined) as (k & n & ->).
  destruct (js_slice_run (take n (drop k (rows this))) (VNumber (S754_zero false))
              (limitValue this)) as (k' & n' & ->).
  exists (k + k'), (n' `min` (n - k')).
  by rewrite skipn_firstn_comm, take_take, drop_drop.
Qed.

Lemma limited_sublist this : limited this `sublist_of` rows this.
Proof.
  destruct (limited_run this) as (k & n & ->).
  etrans; [apply sublist_take | apply sublist_drop].
Qed.

Lemma scalar_limited this :
  Query.scalar this
  = (this, Normal match limited this with
                  | [] => VBoolean false
                  | row :: _ =>
                      match first_column_of this row with
                      | Some name =>
                          if to_boolean row && Query.column_truthy (Some name)
                          then nullish_coalesce (get_prop row name) (VBoolean false)
                          else VBoolean false
                      | None => VBoolean false
                      end
                  end).
Proof.
  unfold Query.scalar, mbind, M_bind, mret, M_ret.
  rewrite first_limited, getFirstColumn_limited. unfold first_column_of.
  destruct (limited this) as [|row others]; simpl.
  - by destruct (columns this).
  - destruct (columns this) as [|column others']; [|done].
    destruct (to_boolean row); by destruct (head (object_keys row)).
Qed.

Lemma column_limited this :
  Query.column this
  = (this, Normal match columns this with
                  | column :: _ =>
                      if Query.column_truthy (Some column)
                      then (λ row, get_prop row column) <$> limited this
                      else []
                  | [] =>
                      match limited this with
                      | row :: _ =>
                          match head (object_keys row) with
                          | Some name =>
                              if to_boolean row && Query.column_truthy (Some name)
                              then (λ row, get_prop row name) <$> limited this
                              else []
                          | None => []
                          end
                      | [] => []
                      end
                  end).
Proof.
  unfold Query.column, mbind, M_bind, mret, M_ret.
  rewrite getFirstColumn_limited.
  destruct (columns this) as [|column others].
  - destruct (limited this) as [|row others] eqn:Hrows; [done|].
    destruct (to_boolean row); [|by destruct (head (object_keys row))].
    destruct (head (object_keys row)) as [name|]; [|done].
    unfold Query.column_truthy, to_boolean. cbn [andb].
    destruct (negb (name =? "")); [|done].
    cbn [negb]. rewrite getLimitedRows_limited. by rewrite Hrows.
  - unfold Query.column_truthy, to_boolean.
    destruct (negb (column =? "")); [|done].
    cbn [negb]. by rewrite getLimitedRows_limited.
Qed.

Lemma first_last_of_window this :
  Query.first this = (this, Normal (default VNull (head (limited this))))
  ∧ Query.last this
    = (this, Normal (from_option (λ row, nullish_coalesce row VNull) VNull
                                 (last (limited this)))).
Proof.
  split; [apply first_limited|].
  unfold Query.last, mbind, M_bind, mret, M_ret.
  rewrite getLimitedRows_limited, count_limited, js_index_Z_last.
  by destruct (last (limited this)).
Qed.

(** X11. [first()] is the first element of [all()] and [last()] its last
    (an undefined one read as null), each null when [all()] is empty;
    [count()] is the length of [all()] and [exists()] tells whether it has
    an element. *)
Theorem first_last_of_all (this : Query) :
  ∃ windowed,
    Query.all this = (this, Normal windowed)
    ∧ Query.first this = (this, Normal (default VNull (head windowed)))
    ∧ Query.last this
      = (this, Normal (from_option (λ row, nullish_coalesce row VNull) VNull
                                   (last windowed)))
    ∧ Query.count this = (this, Normal (length windowed))
    ∧ Query.exists_ this = (this, Normal (bool_decide (windowed ≠ []))).
Proof.
  destruct (first_last_of_window this) as (Hfirst & Hlast).
  exists (limited this). split; [done|]. split; [done|].
  split; [done|]. split; [done|].
  rewrite exists_limited. by destruct (limited this).
Qed.

(** X12. A query whose window is empty returns the "no result" of every
    extraction: null, null, 0, false, false, no column value and no
    values. *)
Theorem empty_window_results (this : Query) :
  Query.all this = (this, Normal []) →
  Query.first this = (this, Normal VNull)
  ∧ Query.last this = (this, Normal VNull)
  ∧ Query.count this = (this, Normal 0)
  ∧ Query.exists_ this = (this, Normal false)
  ∧ Query.scalar this = (this, Normal (VBoolean false))
  ∧ Query.column this = (this, Normal [])
  ∧ Query.values this = (this, Normal []).
Proof.
  rewrite all_limited. intros [= Hempty].
  rewrite first_limited, count_limited, exists_limited, scalar_limited, column_limited.
  unfold Query.last, Query.values, mbind, M_bind, mret, M_ret, get.
  rewrite !getLimitedRows_limited, count_limited. rewrite !Hempty. simpl.
  repeat split; try done.
  destruct (columns this) as [|column others]; [done|].
  by destruct (String.eqb column "").
Qed.

(** X13. [scalar()] is the first element of [column()], and false when
    [column()] has no first element or it is null or undefined. Rows are
    objects. *)
Theorem scalar_is_first_of_column (this : Query) :
  Forall (λ row, isObject row = true) (rows this) →
  ∃ values,
    Query.column this = (this, Normal values)
    ∧ Query.scalar this
      = (this, Normal (nullish_coalesce (js_index values 0) (VBoolean false))).
Proof.
  intros Hobjects. eexists. split; [apply column_limited|].
  rewrite scalar_limited. unfold first_column_of, Query.column_truthy. do 2 f_equal.
  destruct (limited this) as [|row others] eqn:Hrows.
  - destruct (columns this) as [|column others]; [done|].
    by destruct (to_boolean (VString column)).
  - assert (to_boolean row = true) as ->.
    { assert (Hin : row ∈ rows this).
      { eapply elem_of_sublist; [|apply limited_sublist]. rewrite Hrows. by left. }
      rewrite Forall_forall in Hobjects. specialize (Hobjects row Hin).
      by destruct row. }
    destruct (columns this) as [|column others'].
    + destruct (head (object_keys row)) as [name|]; [|done].
      by destruct (to_boolean (VString name)).
    + by destruct (to_boolean (VString column)).
Qed.

End ResultExtras.

Section ColumnExtras.
Context `{Host}.

Lemma values_limited this :
  Query.values this
  = (this, Normal ((λ row,
                      if negb (length (columns this) =? 0)%nat
                      then (λ column, get_prop row column) <$> columns this
                      else object_values row) <$> limited this)).
Proof. done. Qed.

(** X14. With columns selected (the first name not empty), [column()]
    holds the first selected column of every windowed row and [values()]
    all the selected columns, in the order of the selection, a missing
    one as undefined; both have one element for each row of [all()]. *)
Theorem column_and_values_of_selection (this : Query) (name : string)
    (others : list string) :
  columns this = name :: others →
  name ≠ "" →
  ∃ windowed,
    Query.all this = (this, Normal windowed)
    ∧ Query.column this = (this, Normal ((λ row, get_prop row name) <$> windowed))
    ∧ Query.values this
      = (this, Normal ((λ row, (λ column, get_prop row column) <$> name :: others)
                         <$> windowed))
    ∧ Query.count this = (this, Normal (length windowed)).
Proof.
  intros Hcolumns Hname. exists (limited this). split; [done|].
  rewrite column_limited, values_limited, count_limited, Hcolumns.
  unfold Query.column_truthy, to_boolean.
  destruct (String.eqb_spec name ""); done.
Qed.

(** X15. Without a selection, the column of [column()] is the first field
    of the first windowed row, and it is read in every row; [values()]
    holds the values of the own fields of each row. *)
Theorem column_and_values_by_default (this : Query) (row : value)
    (others : list value) (name : string) :
  columns this = [] →
  Query.all this = (this, Normal (row :: others)) →
  isObject row = true →
  head (object_keys row) = Some name →
  name ≠ "" →
  Query.column this
  = (this, Normal ((λ row', get_prop row' name) <$> row :: others))
  ∧ Query.values this = (this, Normal (object_values <$> row :: others)).
Proof.
  rewrite all_limited. intros Hcolumns [= Hrows] Hobj Hhead Hname.
  rewrite column_limited, values_limited, Hcolumns, Hrows, Hhead.
  unfold Query.column_truthy, to_boolean.
  destruct (String.eqb_spec name ""); [done|].
  by destruct row.
Qed.

(** X16. Whatever [startAt] and [limitValue] hold, [all()] is a run of
    consecutive rows of the working set. *)
Theorem all_is_a_run (this : Query) :
  ∃ k n, Query.all this = (this, Normal (take n (drop k (rows this)))).
Proof.
  destruct (limited_run this) as (k & n & Hrun).
  exists k, n. by rewrite all_limited, Hrun.
Qed.

(** X17. With [startAt = s] and the limit unset or [l], [count()] is what
    is left of the rows after [s], at most [l]; [first()] is the row at
    index [s] and [last()] the row at index [s + count - 1], null when
    the window is empty. *)
Theorem window_bounds (this : Query) (s : nat) (l : option nat) :
  number_is (startAt this) (Z.of_nat s) →
  limit_is (limitValue this) l →
  Forall (λ row, isObject row = true) (rows this) →
  let n := from_option (λ l, l `min` (length (rows this) - s)) (length (rows this) - s) l in
  Query.count this = (this, Normal n)
  ∧ Query.first this
    = (this, Normal (if decide (n = 0) then VNull else js_index (rows this) s))
  ∧ Query.last this
    = (this, Normal (if decide (n = 0) then VNull else js_index (rows this) (s + n - 1))).
Proof.
  intros Hs Hl Hobjects n.
  assert (Hlimited : limited this = window s l (rows this)).
  { pose proof (getLimitedRows_window this s l Hs Hl) as Hw.
    rewrite getLimitedRows_limited in Hw. congruence. }
  assert (Hlength : length (window s l (rows this)) = n).
  { unfold n. destruct l as [l|]; simpl; rewrite ?length_take, length_drop; lia. }
  assert (Hlookup : ∀ i, i < n → window s l (rows this) !! i = rows this !! (s + i)).
  { intros i Hi. unfold n in Hi. destruct l as [l|]; simpl in *.
    - rewrite lookup_take_lt by lia. apply lookup_drop.
    - apply lookup_drop. }
  split; [by rewrite count_limited, Hlimited, Hlength|].
  split.
  - rewrite first_limited, Hlimited. do 2 f_equal. rewrite head_lookup.
    case_decide as Hn.
    + rewrite lookup_ge_None_2; [done | lia].
    + rewrite Hlookup, Nat.add_0_r by lia. unfold js_index.
      destruct (lookup_lt_is_Some_2 (rows this) s) as [row ->]; [|done].
      unfold n in Hn. destruct l; simpl in Hn; lia.
  - unfold Query.last, mbind, M_bind, mret, M_ret.
    rewrite getLimitedRows_limited, count_limited, js_index_Z_last, Hlimited.
    rewrite last_lookup, Hlength. do 2 f_equal.
    case_decide as Hn.
    + rewrite lookup_ge_None_2; [done | lia].
    + rewrite Hlookup by lia. unfold js_index.
      replace (s + Init.Nat.pred n) with (s + n - 1) by lia.
      destruct (rows this !! (s + n - 1)) as [row|] eqn:Hrow; simpl.
      2: { apply lookup_ge_None_1 in Hrow. unfold n in *.
           destruct l; simpl in *; lia. }
      rewrite Forall_forall in Hobjects.
      assert (isObject row = true) by (eapply Hobjects, list_elem_of_lookup_2, Hrow).
      by destruct row.
Qed.

End ColumnExtras.

(** *** The lifetime: results come from the input, setters replace and commute *)

Section LifetimeExtras.
Context `{Host}.

Lemma skip_limit_run n this :
  invalid_argument n = false →
  Query.skip n this = (set_startAt n this, Normal ())
  ∧ Query.limit n this = (set_limitValue n this, Normal ()).
Proof.
  rewrite invalid_argument_checks, skip_run, limit_run.
  destruct (negb (isNumber n) || js_lt n (VNumber (S754_zero false))); [done|].
  simpl. by intros ->.
Qed.

Lemma perform_rows_subseteq op this :
  rows (perform op this).1 ⊆ rows this.
Proof.
  destruct op as [columns|condition|condition|columns|n|n]; cbn [perform].
  - done.
  - apply sublist_subseteq, filterRows_sublist.
  - apply sublist_subseteq, filterWhere_sublist.
  - intros row. by rewrite orderBy_rows_Permutation.
  - by rewrite skip_rows.
  - by rewrite limit_rows.
Qed.

Lemma perform_all_rows_subseteq ops this :
  rows (perform_all ops this) ⊆ rows this.
Proof.
  revert this. induction ops as [|op ops IH]; intros this; simpl; [done|].
  etrans; [apply IH | apply perform_rows_subseteq].
Qed.

(** X18. After any sequence of calls on [from(input)], every row that
    [all()] returns is a row of the input, there are at most as many as
    in the input, and [first()] and [last()] are rows of the input or
    null. *)
Theorem results_come_from_input (input : list value) (ops : list operation) :
  let this := perform_all ops (Query.from input) in
  ∃ windowed first last,
    Query.all this = (this, Normal windowed)
    ∧ windowed ⊆ input
    ∧ (length windowed ≤ length input)%nat
    ∧ Query.first this = (this, Normal first)
    ∧ (first = VNull ∨ first ∈ input)
    ∧ Query.last this = (this, Normal last)
    ∧ (last = VNull ∨ last ∈ input).
Proof.
  intros this.
  assert (Hrows : rows this ⊆ input)
    by apply (perform_all_rows_subseteq ops (Query.from input)).
  assert (Hwindow : limited this ⊆ input).
  { etrans; [apply sublist_subseteq, limited_sublist | done]. }
  destruct (first_last_of_window this) as (Hfirst & Hlast).
  eexists _, _, _. split; [apply all_limited|]. split; [done|].
  split.
  { etrans; [apply sublist_length, limited_sublist|].
    apply (perform_all_length ops (Query.from input)). }
  split; [exact Hfirst|]. split.
  { destruct (head (limited this)) as [row|] eqn:Hhead; [|by left].
    right. apply Hwindow. destruct (limited this); [done|].
    injection Hhead as ->. by left. }
  split; [exact Hlast|].
  destruct (last (limited this)) as [row|] eqn:Hrow; [|by left]. simpl.
  assert (row ∈ input).
  { apply Hwindow. rewrite last_lookup in Hrow. by eapply list_elem_of_lookup_2. }
  destruct row; auto.
Qed.

(** X19. [skip], [limit] and [select] replace what an earlier call set:
    the second of two valid calls is the one that counts. *)
Theorem setters_replace (this : Query) (a b : value) (c d : select_columns) :
  invalid_argument a = false →
  invalid_argument b = false →
  then_ (Query.skip a) (Query.skip b) this = Query.skip b this
  ∧ then_ (Query.limit a) (Query.limit b) this = Query.limit b this
  ∧ then_ (Query.select c) (Query.select d) this = Query.select d this.
Proof.
  intros Ha Hb.
  destruct (skip_limit_run a this Ha) as [Hsa Hla].
  destruct (skip_limit_run b this Hb) as [Hsb Hlb].
  destruct (skip_limit_run b (set_startAt a this) Hb) as [Hsb' _].
  destruct (skip_limit_run b (set_limitValue a this) Hb) as [_ Hlb'].
  unfold then_, mbind, M_bind.
  by rewrite Hsa, Hla, Hsb, Hlb, Hsb', Hlb'.
Qed.

(** X20. The calls that set the window or the selection and the calls
    that filter or order can be made in either order: a valid [skip] or
    [limit], and any [select], commute with [where] and with [orderBy]. *)
Theorem setters_commute_with_filters (this : Query) (n : value)
    (selected : select_columns) (condition : where_condition)
    (columns : list string) :
  invalid_argument n = false →
  then_ (Query.skip n) (Query.where_ condition) this
  = then_ (Query.where_ condition) (Query.skip n) this
  ∧ then_ (Query.limit n) (Query.where_ condition) this
    = then_ (Query.where_ condition) (Query.limit n) this
  ∧ then_ (Query.skip n) (Query.orderBy columns) this
    = then_ (Query.orderBy columns) (Query.skip n) this
  ∧ then_ (Query.limit n) (Query.orderBy columns) this
    = then_ (Query.orderBy columns) (Query.limit n) this
  ∧ then_ (Query.select selected) (Query.where_ condition) this
    = then_ (Query.where_ condition) (Query.select selected) this
  ∧ then_ (Query.select selected) (Query.orderBy columns) this
    = then_ (Query.orderBy columns) (Query.select selected) this.
Proof.
  intros Hn.
  destruct (skip_limit_run n this Hn) as [Hs Hl].
  destruct (skip_limit_run n (Query.where_ condition this).1 Hn) as [Hsw Hlw].
  destruct (skip_limit_run n (Query.orderBy columns this).1 Hn) as [Hso Hlo].
  unfold then_, mbind, M_bind. rewrite Hs, Hl.
  unfold Query.where_, Query.filterRows, Query.orderBy, get, put, mbind, M_bind in *.
  simpl in *. by rewrite Hsw, Hlw, Hso, Hlo.
Qed.

End LifetimeExtras.

(** *** The number validation decorators *)

Section ValidationExtras.
Context `{Host}.
Import NumberValidation.

Lemma checkMinParams_run methodName params arguments :
  if forallb (λ parameter,
                let actualValue := js_index arguments (config_index parameter) in
                isNumber actualValue
                && negb (js_lt actualValue (config_value_of parameter))) params
  then checkMinParams methodName params arguments = Normal ()
  else ∃ e, checkMinParams methodName params arguments = Throw e
            ∧ method e = methodName
            ∧ argument e = js_index arguments (param e)
            ∧ ∃ parameter, parameter ∈ params
                ∧ expected e = ("equal or greater than " ++ config_value_string parameter)%string.
Proof.
  induction params as [|parameter params IH]; simpl; [done|].
  destruct (isNumber (js_index arguments (config_index parameter))); simpl.
  - destruct (js_lt _ _); simpl.
    + eexists. repeat split. exists parameter. split; [by left | done].
    + destruct (forallb _ params); [done|].
      destruct IH as (e & -> & ? & ? & parameter' & ? & ?).
      exists e. repeat split; try done. exists parameter'. split; [by right | done].
  - eexists. repeat split. exists parameter. split; [by left | done].
Qed.

Lemma checkMaxParams_run methodName params arguments :
  if forallb (λ parameter,
                let actualValue := js_index arguments (config_index parameter) in
                isNumber actualValue
                && negb (js_gt actualValue (config_value_of parameter))) params
  then checkMaxParams methodName params arguments = Normal ()
  else ∃ e, checkMaxParams methodName params arguments = Throw e
            ∧ method e = methodName
            ∧ argument e = js_index arguments (param e)
            ∧ ∃ parameter, parameter ∈ params
                ∧ expected e = ("equal or less than " ++ config_value_string parameter)%string.
Proof.
  induction params as [|parameter params IH]; simpl; [done|].
  destruct (isNumber (js_index arguments (config_index parameter))); simpl.
  - destruct (js_gt _ _); simpl.
    + eexists. repeat split. exists parameter. split; [by left | done].
    + destruct (forallb _ params); [done|].
      destruct IH as (e & -> & ? & ? & parameter' & ? & ?).
      exists e. repeat split; try done. exists parameter'. split; [by right | done].
  - eexists. repeat split. exists parameter. split; [by left | done].
Qed.

Lemma checkIntegerParams_run methodName params arguments :
  if forallb (λ parameter, isSafeInteger (js_index arguments (config_index parameter)))
             params
  then checkIntegerParams methodName params arguments = Normal ()
  else ∃ e, checkIntegerParams methodName params arguments = Throw e
            ∧ method e = methodName
            ∧ argument e = js_index arguments (param e)
            ∧ expected e = "an integer".
Proof.
  induction params as [|parameter params IH]; simpl; [done|].
  destruct (isSafeInteger (js_index arguments (config_index parameter))); simpl.
  - destruct (forallb _ params); [done|].
    destruct IH as (e & -> & ? & ? & ?). by exists e.
  - eexists. by repeat split.
Qed.

(** X21. A method under [@validateNumbers] runs exactly when its
    arguments pass every check its parameter decorators ask for;
    otherwise the call throws an error that names the method and the
    rejected argument, the state is what it was and the method has not
    run. *)
Theorem validateNumbers_guards_method {S A} (target : metadata)
    (propertyName : string) (body : list value → M S A) (arguments : list value)
    (this : S) :
  if arguments_valid target propertyName arguments
  then validateNumbers target propertyName body arguments this = body arguments this
  else ∃ e, validateNumbers target propertyName body arguments this = (this, Throw e)
            ∧ method e = propertyName
            ∧ argument e = js_index arguments (param e).
Proof.
  unfold arguments_valid, validateNumbers, lift, mbind, M_bind.
  pose proof (checkMinParams_run propertyName
                (getOwnMetadata minMetadataKey target propertyName) arguments) as Hmin.
  pose proof (checkMaxParams_run propertyName
                (getOwnMetadata maxMetadataKey target propertyName) arguments) as Hmax.
  pose proof (checkIntegerParams_run propertyName
                (getOwnMetadata integerMetadataKey target propertyName) arguments) as Hint.
  destruct (forallb _ (getOwnMetadata minMetadataKey target propertyName)); simpl.
  - rewrite Hmin.
    destruct (forallb _ (getOwnMetadata maxMetadataKey target propertyName)); simpl.
    + rewrite Hmax.
      destruct (forallb _ (getOwnMetadata integerMetadataKey target propertyName)).
      * by rewrite Hint.
      * destruct Hint as (e & -> & ? & ? & ?). by exists e.
    + destruct Hmax as (e & -> & ? & ? & ?). by exists e.
  - destruct Hmin as (e & -> & ? & ? & ?). by exists e.
Qed.

(** X22. A parameter decorated with [@integer], [@min(lo)] and [@max(hi)]
    accepts the safe integers from [lo] to [hi]: the call throws with
    "equal or greater than [lo]" for an argument that is not a number or
    is below [lo], else with "equal or less than [hi]" for one above
    [hi], else with "an integer" for one that is not a safe integer, and
    runs the method otherwise. *)
Theorem bounded_integer_parameter {S A} (propertyName : string) (lo hi : number)
    (body : list value → M S A) (n : value) (this : S) :
  let target :=
    integer (max hi (min lo no_metadata propertyName 0) propertyName 0) propertyName 0 in
  validateNumbers target propertyName body [n] this
  = if negb (isNumber n) || js_lt n (VNumber lo)
    then (this, Throw {| method := propertyName; param := 0; argument := n;
                         expected := ("equal or greater than " ++ NumberToString lo)%string |})
    else if js_gt n (VNumber hi)
         then (this, Throw {| method := propertyName; param := 0; argument := n;
                              expected := ("equal or less than " ++ NumberToString hi)%string |})
         else if negb (isSafeInteger n)
              then (this, Throw {| method := propertyName; param := 0; argument := n;
                                   expected := "an integer" |})
              else body [n] this.
Proof.
  intros target.
  unfold validateNumbers, lift, mbind, M_bind, target, integer, max, min,
    getOwnMetadata, defineMetadata, no_metadata.
  cbn [metadata_key_eqb andb]. rewrite String.eqb_refl.
  cbn [app checkMinParams checkMaxParams checkIntegerParams config_index
       config_value config_value_of config_value_string from_option].
  change (js_index [n] 0) with n.
  destruct (isNumber n) eqn:Hnumber; cbn [negb orb]; [|done].
  destruct (js_lt n (VNumber lo)); [done|].
  destruct (js_gt n (VNumber hi)); [done|].
  by destruct (isSafeInteger n).
Qed.

End ValidationExtras.

(** *** Strict equality, array comparison and conditions that match nothing *)

Lemma SFeqb_sym x y : SFeqb x y = SFeqb y x.
Proof.
  unfold SFeqb. rewrite (SFcompare_antisym y x).
  by destruct (SFcompare y x) as [[]|].
Qed.

Lemma SFeqb_refl x : SFeqb x x = true ↔ x ≠ S754_nan.
Proof.
  unfold SFeqb. destruct x as [s|s| |s m e]; simpl.
  - by split.
  - by destruct s; split.
  - split; [done | intros Hnan; by destruct Hnan].
  - destruct s; rewrite Z.compare_refl;
      change (PosDef.Pos.compare_cont Eq m m) with (Pos.compare m m);
      rewrite Pos.compare_refl; by split.
Qed.

Lemma strict_equals_sym x y : strict_equals x y = strict_equals y x.
Proof.
  destruct x, y; simpl; try done.
  - by destruct b, b0.
  - apply SFeqb_sym.
  - apply String.eqb_sym.
  - apply Nat.eqb_sym.
  - apply Nat.eqb_sym.
  - apply Nat.eqb_sym.
Qed.

Lemma strict_equals_refl x : strict_equals x x = true ↔ x ≠ VNumber S754_nan.
Proof.
  destruct x; simpl; try done.
  - by destruct b.
  - rewrite SFeqb_refl. split; [congruence | intros Hn ->; by apply Hn].
  - by rewrite String.eqb_refl.
  - by rewrite Nat.eqb_refl.
  - by rewrite Nat.eqb_refl.
  - by rewrite Nat.eqb_refl.
Qed.


(** X23. On two arrays without holes [compareArrays] does not depend on
    the order of its arguments; it is false for arrays of different
    lengths, and true of an array and itself exactly when the array holds
    no [NaN]. *)
Theorem compareArrays_symmetric (a b : list (option value)) :
  Forall is_Some a →
  Forall is_Some b →
  compareArrays a b = compareArrays b a
  ∧ (length a ≠ length b → compareArrays a b = false)
  ∧ (compareArrays a a = true ↔ Forall (λ element, element ≠ Some (VNumber S754_nan)) a).
Proof.
  intros Ha Hb. split; [|split].
  - apply eq_true_iff_eq. rewrite !compareArrays_matching by done.
    unfold matching_elementwise.
    split; intros [Hlen Hall]; (split; [done|]); intros i Hi;
      rewrite strict_equals_sym; apply Hall; lia.
  - intros Hlen. unfold compareArrays.
    by rewrite (proj2 (Nat.eqb_neq _ _) Hlen).
  - rewrite compareArrays_elements, Forall_lookup. split.
    + intros [_ Hall] i element Hi ->. specialize (Hall i _ Hi).
      unfold position_at in Hall. rewrite Hi in Hall.
      by apply strict_equals_refl in Hall.
    + intros Hall. split; [done|]. intros i v Hi.
      unfold position_at. rewrite Hi. apply strict_equals_refl.
      intros ->. by apply (Hall i _ Hi).
Qed.

Section NothingMatches.
Context `{Host}.


(** X25. [where({})] leaves the query as it is, and so does
    [filterWhere] of an object whose every value is null or undefined. *)
Theorem empty_conditions_keep_all (this : Query) (c : conditions) :
  ignoreNullValues this = false →
  Forall (λ entry, entry.2 = VNull ∨ entry.2 = VUndefined) c →
  Query.where_ (Conditions []) this = (this, Normal ())
  ∧ Query.filterWhere c this = (this, Normal ()).
Proof.
  intros Hmode Hnullish.
  assert (Hstrip : strip_nullish c = []).
  { induction Hnullish as [|[k c'] c [Hc'|Hc'] _ IH]; simpl in *; by subst. }
  assert (Hempty : Query.where_ (Conditions []) this = (this, Normal ())).
  { unfold Query.where_. rewrite filterRows_conditions.
    rewrite filter_true by done. by destruct this. }
  split; [done|].
  unfold Query.filterWhere, get, put, mbind, M_bind.
  rewrite filterRows_conditions. simpl.
  rewrite filter_true.
  - destruct this; simpl in *. by subst.
  - intros row. by rewrite validate_strip, Hstrip.
Qed.

End NothingMatches.

(** *** The base object *)

Lemma assoc_not_in k (props : list (string * value)) :
  k ∉ props.*1 → assoc k props = None.
Proof.
  induction props as [|[k0 v0] props IH]; [done|].
  rewrite fmap_cons, not_elem_of_cons. cbn. intros [Hne Hk].
  rewrite (proj2 (String.eqb_neq k0 k)) by done. by apply IH.
Qed.

Lemma assoc_app k (l1 l2 : list (string * value)) :
  assoc k (l1 ++ l2) = match assoc k l1 with Some v => Some v | None => assoc k l2 end.
Proof.
  induction l1 as [|[k0 v0] l1 IH]; simpl; [done|].
  by destruct (String.eqb k0 k).
Qed.

Lemma assoc_update_prop k v props k' :
  k ∈ props.*1 →
  assoc k' (update_prop k v props) = if String.eqb k k' then Some v else assoc k' props.
Proof.
  induction props as [|[k0 v0] props IH]; [by intros ?%elem_of_nil|].
  rewrite fmap_cons. cbn [fst update_prop]. intros Hin.
  destruct (String.eqb_spec k0 k) as [->|Hne]; cbn [assoc].
  - by destruct (String.eqb k k').
  - apply elem_of_cons in Hin as [->|Hin]; [done|]. rewrite IH by done.
    destruct (String.eqb_spec k0 k') as [->|]; [|done].
    by rewrite (proj2 (String.eqb_neq k k')).
Qed.

Lemma update_prop_keys k v props : (update_prop k v props).*1 = props.*1.
Proof.
  induction props as [|[k0 v0] props IH]; [done|]. cbn [update_prop].
  destruct (String.eqb_spec k0 k) as [->|Hne]; [done|].
  by rewrite !fmap_cons, IH.
Qed.

(** Where [insert_index] puts a new array index: after the array indices
    below it and before the rest. *)
Lemma insert_index_split n k v props :
  ∃ before after,
    props = before ++ after
    ∧ insert_index n k v props = before ++ (k, v) :: after
    ∧ Forall (λ p, ∃ n', array_index p.1 = Some n' ∧ (n' < n)%N) before
    ∧ ∀ p, head after = Some p → ∀ n', array_index p.1 = Some n' → (n <= n')%N.
Proof.
  induction props as [|[k0 v0] props IH]; cbn [insert_index].
  - exists [], []. by repeat split.
  - destruct (array_index k0) as [n'|] eqn:Hk0.
    + destruct (N.ltb_spec n' n) as [Hlt|Hge].
      * destruct IH as (before & after & -> & -> & Hbefore & Hafter).
        exists ((k0, v0) :: before), after. repeat split; [|done].
        constructor; [|done]. by exists n'.
      * exists [], ((k0, v0) :: props). repeat split; [done|].
        intros p [= <-] n'' Hn''. cbn in Hn''. congruence.
    + exists [], ((k0, v0) :: props). repeat split; [done|].
      intros p [= <-] n'' Hn''. cbn in Hn''. congruence.
Qed.

Lemma assoc_set_prop k v props k' :
  assoc k' (set_prop k v props) = if String.eqb k k' then Some v else assoc k' props.
Proof.
  unfold set_prop. case_bool_decide as Hin; [by apply assoc_update_prop|].
  assert (Hnew : ∀ before after, props = before ++ after →
            assoc k' (before ++ (k, v) :: after)
            = if String.eqb k k' then Some v else assoc k' props).
  { intros before after ->. rewrite !assoc_app. cbn [assoc].
    destruct (String.eqb_spec k k') as [->|Hne]; [|done].
    rewrite assoc_not_in; [done|]. intros Hbefore. apply Hin.
    rewrite fmap_app. apply elem_of_app. by left. }
  destruct (array_index k) as [n|].
  - destruct (insert_index_split n k v props) as (before & after & Hprops & -> & _).
    by apply Hnew.
  - apply (Hnew props []). by rewrite app_nil_r.
Qed.

(** X26. After [setAttributes(attributes)] an attribute reads as the last
    value the argument gives for it, and as before when the argument does
    not name it; [setAttribute] changes the one attribute and keeps the
    others where they are; a new attribute goes last, or, when its name
    is an array index, after the array indices below it and before the
    other attributes; a base object made without argument has no
    attribute. *)
Theorem setAttributes_then_read (this attributes : list (string * value))
    (k k' : string) (v : value) :
  assoc k (BaseObject.setAttributes attributes this).1
  = match assoc k (reverse attributes) with
    | Some v' => Some v'
    | None => assoc k this
    end
  ∧ assoc k' (BaseObject.setAttribute k v this).1
    = (if String.eqb k k' then Some v else assoc k' this)
  ∧ (k ∈ this.*1 → (BaseObject.setAttribute k v this).1.*1 = this.*1)
  ∧ (k ∉ this.*1 → array_index k = None →
     (BaseObject.setAttribute k v this).1.*1 = this.*1 ++ [k])
  ∧ (∀ n, k ∉ this.*1 → array_index k = Some n →
          ∃ before after,
            this.*1 = before ++ after
            ∧ (BaseObject.setAttribute k v this).1.*1 = before ++ k :: after
            ∧ Forall (λ name, ∃ n', array_index name = Some n' ∧ (n' < n)%N) before
            ∧ ∀ name, head after = Some name →
                      ∀ n', array_index name = Some n' → (n <= n')%N)
  ∧ BaseObject.new None = []
  ∧ BaseObject.new (Some attributes) = (BaseObject.setAttributes attributes []).1.
Proof.
  split; [|split; [apply assoc_set_prop|]].
  { unfold BaseObject.setAttributes, get, put, mbind, M_bind, object_assign. simpl.
    revert this. induction attributes as [|[k0 v0] attributes IH]; intros this; [done|].
    simpl. rewrite IH, reverse_cons, assoc_app, assoc_set_prop. simpl.
    destruct (assoc k (reverse attributes)); [done|].
    by destruct (String.eqb k0 k). }
  unfold BaseObject.setAttribute, get, put, mbind, M_bind. cbn [fst]. unfold set_prop.
  split; [|split; [|split; [|done]]].
  - intros Hin. rewrite bool_decide_eq_true_2 by done. apply update_prop_keys.
  - intros Hin ->. rewrite bool_decide_eq_false_2 by done. by rewrite fmap_app.
  - intros n Hin ->. rewrite bool_decide_eq_false_2 by done.
    destruct (insert_index_split n k v this)
      as (before & after & -> & -> & Hbefore & Hafter).
    exists before.*1, after.*1. rewrite !fmap_app, fmap_cons. repeat split.
    + by apply Forall_fmap.
    + intros name Hhead n' Hn'. destruct after as [|p after]; [done|].
      injection Hhead as <-. by apply (Hafter p).
Qed.

(** *** The further properties at concrete inputs *)

(** A tolerant filter with one null entry and one literal. *)
Lemma filterWhere_is_where_stripped_witness :
  ignoreNullValues (Query.from sample_rows) = false
  ∧ Query.filterWhere [("id", VNull); ("p", num 3)] (Query.from sample_rows)
    = Query.where_ (Conditions [("p", num 3)]) (Query.from sample_rows).
Proof.
  split; [reflexivity|].
  apply (filterWhere_is_where_stripped (Query.from sample_rows)
           [("id", VNull); ("p", num 3)]).
  reflexivity.
Defined.

(** The coordinates ordered twice by [x], then [y]. *)
Lemma orderBy_idempotent_witness :
  (∀ a b c, a ∈ rows (Query.from coords) → b ∈ rows (Query.from coords) →
            c ∈ rows (Query.from coords) →
            (sortByProperties ["x"; "y"] a b <= 0)%Z →
            (sortByProperties ["x"; "y"] b c <= 0)%Z →
            (sortByProperties ["x"; "y"] a c <= 0)%Z)
  ∧ then_ (Query.orderBy ["x"; "y"]) (Query.orderBy ["x"; "y"]) (Query.from coords)
    = Query.orderBy ["x"; "y"] (Query.from coords).
Proof.
  assert (Htrans : ∀ a b c, a ∈ rows (Query.from coords) → b ∈ rows (Query.from coords) →
            c ∈ rows (Query.from coords) →
            (sortByProperties ["x"; "y"] a b <= 0)%Z →
            (sortByProperties ["x"; "y"] b c <= 0)%Z →
            (sortByProperties ["x"; "y"] a c <= 0)%Z).
  { apply transitive_by_evaluation. vm_compute. reflexivity. }
  split; [exact Htrans|].
  apply (orderBy_idempotent (Query.from coords) ["x"; "y"] Htrans).
Defined.

(** Rows already in the order of [p]. *)
Lemma orderBy_ordered_rows_unchanged_witness :
  (∀ a b c, a ∈ rows (Query.from ordered_rows) → b ∈ rows (Query.from ordered_rows) →
            c ∈ rows (Query.from ordered_rows) →
            (sortByProperties ["p"] a b <= 0)%Z →
            (sortByProperties ["p"] b c <= 0)%Z →
            (sortByProperties ["p"] a c <= 0)%Z)
  ∧ Sorted (λ a b, (sortByProperties ["p"] a b <= 0)%Z) (rows (Query.from ordered_rows))
  ∧ Query.orderBy ["p"] (Query.from ordered_rows) = (Query.from ordered_rows, Normal ()).
Proof.
  assert (Htrans : ∀ a b c, a ∈ rows (Query.from ordered_rows) →
            b ∈ rows (Query.from ordered_rows) → c ∈ rows (Query.from ordered_rows) →
            (sortByProperties ["p"] a b <= 0)%Z →
            (sortByProperties ["p"] b c <= 0)%Z →
            (sortByProperties ["p"] a c <= 0)%Z).
  { apply transitive_by_evaluation. vm_compute. reflexivity. }
  assert (Hsorted : Sorted (λ a b, (sortByProperties ["p"] a b <= 0)%Z)
                           (rows (Query.from ordered_rows))).
  { repeat constructor; by vm_compute. }
  split; [exact Htrans|]. split; [exact Hsorted|].
  apply (orderBy_ordered_rows_unchanged (Query.from ordered_rows) ["p"] Htrans Hsorted).
Defined.

(** The sample rows in the descending order of [p]. *)
Lemma orderBy_any_columns_witness :
  (∀ a b c, a ∈ rows (Query.from sample_rows) → b ∈ rows (Query.from sample_rows) →
            c ∈ rows (Query.from sample_rows) →
            (sortByProperties ["-p"] a b <= 0)%Z →
            (sortByProperties ["-p"] b c <= 0)%Z →
            (sortByProperties ["-p"] a c <= 0)%Z)
  ∧ StronglySorted (λ a b, (sortByProperties ["-p"] a b <= 0)%Z)
      [sample_row 2 "2" 3; sample_row 1 "1" 1; sample_row 3 "3" 0].
Proof.
  assert (Htrans : ∀ a b c, a ∈ rows (Query.from sample_rows) →
            b ∈ rows (Query.from sample_rows) → c ∈ rows (Query.from sample_rows) →
            (sortByProperties ["-p"] a b <= 0)%Z →
            (sortByProperties ["-p"] b c <= 0)%Z →
            (sortByProperties ["-p"] a c <= 0)%Z).
  { apply transitive_by_evaluation. vm_compute. reflexivity. }
  split; [exact Htrans|].
  exact (proj1 (proj2 (proj2 (proj2
           (orderBy_any_columns (Query.from sample_rows) ["-p"] Htrans))))).
Defined.

(** Two arrays without holes that differ in their second element. *)
Lemma compareArrays_symmetric_witness :
  Forall is_Some (dense [num 1; num 2])
  ∧ Forall is_Some (dense [num 1; num 3])
  ∧ compareArrays (dense [num 1; num 2]) (dense [num 1; num 3])
    = compareArrays (dense [num 1; num 3]) (dense [num 1; num 2]).
Proof.
  assert (Ha : Forall is_Some (dense [num 1; num 2])) by (repeat constructor; by eexists).
  assert (Hb : Forall is_Some (dense [num 1; num 3])) by (repeat constructor; by eexists).
  split; [exact Ha|]. split; [exact Hb|].
  exact (proj1 (compareArrays_symmetric _ _ Ha Hb)).
Defined.

(** The coordinates, ordered by [x] then [y] and filtered on [x = 1]. *)
Lemma orderBy_where_commute_witness :
  (∀ a b c, a ∈ rows (Query.from coords) → b ∈ rows (Query.from coords) →
            c ∈ rows (Query.from coords) →
            (sortByProperties ["x"; "y"] a b <= 0)%Z →
            (sortByProperties ["x"; "y"] b c <= 0)%Z →
            (sortByProperties ["x"; "y"] a c <= 0)%Z)
  ∧ rows (then_ (Query.orderBy ["x"; "y"]) (Query.where_ (Conditions [("x", num 1)]))
            (Query.from coords)).1
    = [coord 4 1 1; coord 6 1 2; coord 5 1 3; coord 2 1 4].
Proof.
  assert (Htrans : ∀ a b c, a ∈ rows (Query.from coords) → b ∈ rows (Query.from coords) →
            c ∈ rows (Query.from coords) →
            (sortByProperties ["x"; "y"] a b <= 0)%Z →
            (sortByProperties ["x"; "y"] b c <= 0)%Z →
            (sortByProperties ["x"; "y"] a c <= 0)%Z).
  { apply numeric_columns_transitive; try reflexivity; apply scenario_numeric_columns. }
  split; [exact Htrans|].
  rewrite (orderBy_where_commute (Query.from coords) ["x"; "y"]
             (Conditions [("x", num 1)]) Htrans).
  reflexivity.
Defined.

(** A query on no row. *)
Lemma empty_window_results_witness :
  Query.all (Query.from []) = (Query.from [], Normal [])
  ∧ Query.scalar (Query.from []) = (Query.from [], Normal (VBoolean false))
  ∧ Query.last (Query.from []) = (Query.from [], Normal VNull).
Proof.
  split; [reflexivity|].
  pose proof (empty_window_results (Query.from []) ltac:(reflexivity))
    as (_ & Hlast & _ & _ & Hscalar & _).
  split; [exact Hscalar | exact Hlast].
Defined.

(** The scalar and the column of the sample rows. *)
Lemma scalar_is_first_of_column_witness :
  Forall (λ row, isObject row = true) (rows (Query.from sample_rows))
  ∧ ∃ values,
      Query.column (Query.from sample_rows) = (Query.from sample_rows, Normal values)
      ∧ Query.scalar (Query.from sample_rows)
        = (Query.from sample_rows,
           Normal (nullish_coalesce (js_index values 0) (VBoolean false))).
Proof.
  assert (Hobjects : Forall (λ row, isObject row = true) (rows (Query.from sample_rows))).
  { repeat constructor. }
  split; [exact Hobjects|].
  apply (scalar_is_first_of_column (Query.from sample_rows) Hobjects).
Defined.

(** The selection [id], [p] on the sample rows. *)
Lemma column_and_values_of_selection_witness :
  columns selecting_query = ["id"; "p"]
  ∧ "id" ≠ ""
  ∧ ∃ windowed,
      Query.all selecting_query = (selecting_query, Normal windowed)
      ∧ Query.column selecting_query
        = (selecting_query, Normal ((λ row, get_prop row "id") <$> windowed))
      ∧ Query.values selecting_query
        = (selecting_query,
           Normal ((λ row, (λ column, get_prop row column) <$> ["id"; "p"]) <$> windowed))
      ∧ Query.count selecting_query = (selecting_query, Normal (length windowed)).
Proof.
  split; [reflexivity|]. split; [discriminate|].
  apply (column_and_values_of_selection selecting_query "id" ["p"]);
    [reflexivity | discriminate].
Defined.

(** The default column of the sample rows is [id]. *)
Lemma column_and_values_by_default_witness :
  columns (Query.from sample_rows) = []
  ∧ Query.all (Query.from sample_rows) = (Query.from sample_rows, Normal sample_rows)
  ∧ isObject (sample_row 1 "1" 1) = true
  ∧ head (object_keys (sample_row 1 "1" 1)) = Some "id"
  ∧ "id" ≠ ""
  ∧ Query.column (Query.from sample_rows)
    = (Query.from sample_rows, Normal [VString "1"; VString "2"; VString "3"]).
Proof.
  repeat (split; [first [reflexivity | discriminate]|]).
  apply (column_and_values_by_default (Query.from sample_rows) (sample_row 1 "1" 1)
           [sample_row 2 "2" 3; sample_row 3 "3" 0] "id");
    first [reflexivity | discriminate].
Defined.

(** The sample query skips one row and takes one of three. *)
Lemma window_bounds_witness :
  number_is (startAt sample_query) (Z.of_nat 1)
  ∧ limit_is (limitValue sample_query) (Some 1)
  ∧ Forall (λ row, isObject row = true) (rows sample_query)
  ∧ Query.count sample_query = (sample_query, Normal 1)
  ∧ Query.first sample_query = (sample_query, Normal (sample_row 2 "2" 3))
  ∧ Query.last sample_query = (sample_query, Normal (sample_row 2 "2" 3)).
Proof.
  assert (Hobjects : Forall (λ row, isObject row = true) (rows sample_query)).
  { repeat constructor. }
  split; [reflexivity|]. split; [reflexivity|]. split; [exact Hobjects|].
  apply (window_bounds sample_query 1 (Some 1) ltac:(reflexivity) ltac:(reflexivity)
           Hobjects).
Defined.

(** [skip(1)] after [skip(2)]. *)
Lemma setters_replace_witness :
  invalid_argument (num 2) = false
  ∧ invalid_argument (num 1) = false
  ∧ startAt (then_ (Query.skip (num 2)) (Query.skip (num 1)) (Query.from sample_rows)).1
    = num 1.
Proof.
  split; [reflexivity|]. split; [reflexivity|].
  pose proof (@setters_replace sample_host (Query.from sample_rows) (num 2) (num 1)
                (OneColumn "id") (OneColumn "p") eq_refl eq_refl) as (-> & _).
  reflexivity.
Defined.

(** [limit(1)] before and after a filter on the sample rows. *)
Lemma setters_commute_with_filters_witness :
  invalid_argument (num 1) = false
  ∧ then_ (Query.limit (num 1)) (Query.where_ (Conditions [("p", num 3)]))
      (Query.from sample_rows)
    = then_ (Query.where_ (Conditions [("p", num 3)])) (Query.limit (num 1))
        (Query.from sample_rows).
Proof.
  split; [reflexivity|].
  pose proof (@setters_commute_with_filters sample_host (Query.from sample_rows) (num 1)
                (OneColumn "id") (Conditions [("p", num 3)]) ["p"] eq_refl)
    as (_ & Hlimit & _).
  exact Hlimit.
Defined.


(** A tolerant filter whose two values are null and undefined. *)
Lemma empty_conditions_keep_all_witness :
  ignoreNullValues (Query.from sample_rows) = false
  ∧ Forall (λ entry, entry.2 = VNull ∨ entry.2 = VUndefined)
           [("id", VNull); ("p", VUndefined)]
  ∧ Query.filterWhere [("id", VNull); ("p", VUndefined)] (Query.from sample_rows)
    = (Query.from sample_rows, Normal ()).
Proof.
  assert (Hnullish : Forall (λ entry : string * value,
                               entry.2 = VNull ∨ entry.2 = VUndefined)
                            [("id", VNull); ("p", VUndefined)]).
  { constructor; [by left|]. constructor; [by right|]. constructor. }
  split; [reflexivity|]. split; [exact Hnullish|].
  pose proof (@empty_conditions_keep_all sample_host (Query.from sample_rows)
                [("id", VNull); ("p", VUndefined)] eq_refl Hnullish) as (_ & Hfilter).
  exact Hfilter.
Defined.
